(** * j2objc_header_map: Java class to ObjC header mapping

    A shallow embedding of [tools/j2objc/j2objc_header_map.py] and the
    properties of its package-statement scanner, of the mapping it
    accumulates and of the file it writes.

    The script is a Python 2.7 program ([#!/usr/bin/python2.7]): a [str] is a
    byte string, modelled as [string]; [\s], [str.strip] and [str.isspace]
    agree on the six ASCII whitespace bytes and [\w] is [[a-zA-Z0-9_]].
    Indices are [Z], as [str.rfind] answers -1.  Code that can raise runs in
    the [result] monad; [main] threads the file system and a trace of the
    files it opens. *)

From Stdlib Require Import ZArith Ascii.
From stdpp Require Import gmap strings list fin_maps sorting.

Local Open Scope Z_scope.

(** ** Exceptions *)

Inductive exn : Type :=
  | IndexError
  | KeyError (key : string)
  | IOError (path : string).

Inductive result (A : Type) : Type :=
  | Ok (a : A)
  | Raise (e : exn).
Arguments Ok {A} a.
Arguments Raise {A} e.

#[global] Instance result_ret : MRet result := λ A a, Ok a.

#[global] Instance result_bind : MBind result := λ A B k r,
  match r with
  | Ok a => k a
  | Raise e => Raise e
  end.

(** ** Python 2 [str] primitives *)

Module PyStr.

Definition len (s : string) : Z := Z.of_nat (String.length s).

(** [bool(s)]: a string is true when it is not empty. *)
Definition truthy (s : string) : bool :=
  match s with
  | EmptyString => false
  | String _ _ => true
  end.

(** [c.isspace()] for one byte in the C locale. *)
Definition isspace (c : ascii) : bool := Ascii.is_space c.

(** [s[i]] with an integer index: a negative index counts from the end,
    an index out of range raises [IndexError]. *)
Definition getitem (s : string) (i : Z) : result ascii :=
  let j := if i <? 0 then i + len s else i in
  if j <? 0 then Raise IndexError
  else match String.get (Z.to_nat j) s with
       | Some c => Ok c
       | None => Raise IndexError
       end.

(** [s[lo:hi]]: both bounds are clamped to the string, never raises. *)
Definition clamp (n i : Z) : Z :=
  if i <? 0 then Z.max 0 (i + n) else Z.min i n.

Definition slice (s : string) (lo hi : Z) : string :=
  let a := clamp (len s) lo in
  let b := clamp (len s) hi in
  String.substring (Z.to_nat a) (Z.to_nat (b - a)) s.

(** [s[lo:]] and [s[:hi]]. *)
Definition slice_from (s : string) (lo : Z) : string := slice s lo (len s).
Definition slice_to (s : string) (hi : Z) : string := slice s 0 hi.

Definition startswith (p s : string) : bool := String.prefix p s.

(** [s.endswith(suf)]: some suffix of [s] is [suf]. *)
Fixpoint endswith (suf s : string) : bool :=
  if String.eqb s suf then true
  else match s with
       | EmptyString => false
       | String _ s' => endswith suf s'
       end.

Fixpoint lstrip (s : string) : string :=
  match s with
  | EmptyString => EmptyString
  | String c s' => if isspace c then lstrip s' else s
  end.

Fixpoint rstrip (s : string) : string :=
  match s with
  | EmptyString => EmptyString
  | String c s' =>
      match rstrip s' with
      | EmptyString => if isspace c then EmptyString else String c EmptyString
      | t => String c t
      end
  end.

(** [s.strip()] *)
Definition strip (s : string) : string := rstrip (lstrip s).

(** [s.rfind(c)] for a one-character needle: the highest index, or -1. *)
Fixpoint rfind (c : ascii) (s : string) : Z :=
  match s with
  | EmptyString => -1
  | String x s' =>
      let r := rfind c s' in
      if 0 <=? r then r + 1
      else if Ascii.eqb x c then 0 else -1
  end.

(** [s.split(',')]: the empty string splits into one empty field. *)
Fixpoint split_comma (s : string) : list string :=
  match s with
  | EmptyString => [EmptyString]
  | String c s' =>
      if Ascii.eqb c ","%char then EmptyString :: split_comma s'
      else match split_comma s' with
           | [] => [String c EmptyString]
           | f :: fs => String c f :: fs
           end
  end.

(** Iterating a file object: the lines of the content, each one with its
    terminating newline, the last one possibly without. *)
Fixpoint readlines (content : string) : list string :=
  match content with
  | EmptyString => []
  | String c s' =>
      if Ascii.eqb c "010"%char then String c EmptyString :: readlines s'
      else match readlines s' with
           | [] => [String c EmptyString]
           | l :: ls => String c l :: ls
           end
  end.

(** The maximal run of characters of a class at the head of a string,
    and what follows it: what a greedy [+] or [*] takes. *)
Fixpoint span (f : ascii → bool) (s : string) : string * string :=
  match s with
  | EmptyString => (EmptyString, EmptyString)
  | String c s' =>
      if f c then let '(run, rest) := span f s' in (String c run, rest)
      else (EmptyString, s)
  end.

Fixpoint all_chars (f : ascii → bool) (s : string) : bool :=
  match s with
  | EmptyString => true
  | String c s' => f c && all_chars f s'
  end.

(** [lexical order of str]: bytes compared as unsigned numbers. *)
Definition lt (s1 s2 : string) : Prop := String.ltb s1 s2 = true.

End PyStr.

(** ** [posixpath] *)

Module PosixPath.
Import PyStr.

(** [os.path.basename(p)]: [i = p.rfind('/') + 1; return p[i:]]. *)
Definition basename (p : string) : string :=
  let i := rfind "/"%char p + 1 in
  slice_from p i.

(** The loop of [genericpath._splitext] that skips the leading dots of
    the file name; [fuel] bounds its iterations. *)
Fixpoint splitext_scan (fuel : nat) (p : string) (filenameIndex dotIndex : Z)
    : result (option (string * string)) :=
  match fuel with
  | O => Ok None
  | S fuel' =>
      if filenameIndex <? dotIndex then
        c ← getitem p filenameIndex ;
        if negb (Ascii.eqb c "."%char) then
          Ok (Some (slice_to p dotIndex, slice_from p dotIndex))
        else splitext_scan fuel' p (filenameIndex + 1) dotIndex
      else Ok None
  end.

(** [os.path.splitext(p)], that is [_splitext(p, '/', None, '.')]. *)
Definition splitext (p : string) : result (string * string) :=
  let sepIndex := rfind "/"%char p in
  let dotIndex := rfind "."%char p in
  if sepIndex <? dotIndex then
    let filenameIndex := sepIndex + 1 in
    r ← splitext_scan (Z.to_nat (dotIndex - filenameIndex)) p filenameIndex dotIndex ;
    match r with
    | Some split => Ok split
    | None => Ok (p, EmptyString)
    end
  else Ok (p, EmptyString).

End PosixPath.

(** ** The pattern [_PACKAGE_RE = (package)\s+([\w\.]+);] *)

Module PackageRe.
Import PyStr.

(** [\w] without flags on a byte string. *)
Definition is_word (c : ascii) : bool :=
  let n := Z.of_N (N_of_ascii c) in
  ((97 <=? n) && (n <=? 122)) || ((65 <=? n) && (n <=? 90))
  || ((48 <=? n) && (n <=? 57)) || (n =? 95).

(** The class [[\w\.]]. *)
Definition is_name_char (c : ascii) : bool :=
  is_word c || Ascii.eqb c "."%char.

(** Removes a literal from the head of a string. *)
Fixpoint literal (lit s : string) : option string :=
  match lit with
  | EmptyString => Some s
  | String a lit' =>
      match s with
      | EmptyString => None
      | String b s' => if Ascii.eqb a b then literal lit' s' else None
      end
  end.

(** A match anchored at the head of [s]: group 2 and what follows the
    match.  The two classes are disjoint and [;] is in neither, so the
    greedy runs are the only way the pattern can match here and the
    matcher never has to backtrack. *)
Definition match_here (s : string) : option (string * string) :=
  match literal "package" s with
  | None => None
  | Some s1 =>
      let '(ws, s2) := span isspace s1 in
      if truthy ws then
        let '(name, s3) := span is_name_char s2 in
        if truthy name then
          match s3 with
          | String c rest => if Ascii.eqb c ";"%char then Some (name, rest) else None
          | EmptyString => None
          end
        else None
      else None
  end.

(** The match object: [start(1)] and [group(2)]. *)
Record re_match : Type := ReMatch { start1 : Z; group2 : string }.

(** [search] from offset [i]: the first position where the pattern
    matches. *)
Fixpoint search_from (i : Z) (s : string) : option re_match :=
  match match_here s with
  | Some (name, _) => Some (ReMatch i name)
  | None =>
      match s with
      | EmptyString => None
      | String _ s' => search_from (i + 1) s'
      end
  end.

(** [_PACKAGE_RE.search(s)] *)
Definition search (s : string) : option re_match := search_from 0 s.

End PackageRe.

(** ** [_get_file_map_entry] *)

Import PyStr.

(** What one iteration of the loop does with its line. *)
Inductive verdict : Type :=
  | Continue
  | Return (package_name : string).

(** The body of the [for] loop up to the point where a line is accepted. *)
Definition examine_line (line : string) : result verdict :=
  let stripped_line := strip line in
  match PackageRe.search stripped_line with
  | Some package_statement =>
      let preceding_characters :=
        slice stripped_line 0 (PackageRe.start1 package_statement) in
      if truthy preceding_characters then
        if startswith "//" preceding_characters then Ok Continue
        else
          last ← getitem preceding_characters (len preceding_characters - 1) ;
          if negb (isspace last
                   || endswith ";" preceding_characters
                   || endswith "*/" preceding_characters)
          then Ok Continue
          else Ok (Return (PackageRe.group2 package_statement))
      else Ok (Return (PackageRe.group2 package_statement))
  | None => Ok Continue
  end.

(** The tuple built once a line is accepted. *)
Definition make_entry (java_file_path package_name : string)
    : result (string * string) :=
  base ← PosixPath.splitext (PosixPath.basename java_file_path) ;
  root ← PosixPath.splitext java_file_path ;
  let class_name := base.1 in
  let header_file := root.1 +:+ ".h" in
  Ok (package_name +:+ "." +:+ class_name, header_file).

(** [_get_file_map_entry(java_file_path, java_file)], where [java_file] is
    the sequence of lines the file object has yet to yield.  The answer is
    the returned value ([None] or the tuple) with the lines left unread. *)
Fixpoint _get_file_map_entry (java_file_path : string) (java_file : list string)
    : result (option (string * string) * list string) :=
  match java_file with
  | [] => Ok (None, [])
  | line :: rest =>
      v ← examine_line line ;
      match v with
      | Continue => _get_file_map_entry java_file_path rest
      | Return package_name =>
          entry ← make_entry java_file_path package_name ;
          Ok (Some entry, rest)
      end
  end.

(** ** The world [main] runs in *)

(** What the run opens, in order. *)
Inductive event : Type :=
  | OpenedSource (path : string)
  | OpenedJar (path : string)
  | OpenedJarEntry (jar name : string)
  | OpenedOutput (path : string).

(** The file system: the contents of the files, the members (name and
    content, in the order of the central directory) of the files that are
    archives, and the trace of what was opened so far. *)
Record world : Type := World {
  files : gmap string string;
  archives : gmap string (list (string * string));
  trace : list event
}.

Definition io (A : Type) : Type := world → result A * world.

#[global] Instance io_ret : MRet io := λ A a w, (Ok a, w).

#[global] Instance io_bind : MBind io := λ A B k c w,
  match c w with
  | (Ok a, w') => k a w'
  | (Raise e, w') => (Raise e, w')
  end.

(** A computation that cannot touch the world. *)
Definition lift {A : Type} (r : result A) : io A := λ w, (r, w).

(** The world once one more event is on its trace. *)
Definition logged (e : event) (w : world) : world :=
  World (files w) (archives w) (trace w ++ [e]).

(** [open(path, 'r')]: the file object, as the lines it will yield. *)
Definition open_read (path : string) : io (list string) := λ w,
  match files w !! path with
  | Some content => (Ok (readlines content), logged (OpenedSource path) w)
  | None => (Raise (IOError path), w)
  end.

(** [zipfile.ZipFile(path, 'r')]: the members of the archive.  A path
    that is not a readable archive raises. *)
Definition open_jar (path : string) : io (list (string * string)) := λ w,
  match archives w !! path with
  | Some members => (Ok members, logged (OpenedJar path) w)
  | None => (Raise (IOError path), w)
  end.

(** [jar.namelist()] *)
Definition namelist (jar : list (string * string)) : list string := jar.*1.

(** [NameToInfo[name]]: of two members with one name the later one is
    kept. *)
Fixpoint getinfo (jar : list (string * string)) (name : string) : option string :=
  match jar with
  | [] => None
  | (n, content) :: jar' =>
      match getinfo jar' name with
      | Some c => Some c
      | None => if String.eqb n name then Some content else None
      end
  end.

(** [jar.open(name)] on the archive opened from [path]. *)
Definition jar_open (path : string) (jar : list (string * string)) (name : string)
    : io (list string) := λ w,
  match getinfo jar name with
  | Some content => (Ok (readlines content), logged (OpenedJarEntry path name) w)
  | None => (Raise (KeyError name), w)
  end.

(** [open(path, 'w')] truncates the file; [write] appends to it.  The
    path is taken to be writable. *)
Definition open_write (path : string) : io unit := λ w,
  (Ok (), World (<[path := EmptyString]> (files w)) (archives w)
                (trace w ++ [OpenedOutput path])).

Definition write (path data : string) : io unit := λ w,
  (Ok (), World (<[path := default EmptyString (files w !! path) +:+ data]> (files w))
                (archives w) (trace w)).

(** A [for] loop whose body updates a value. *)
Fixpoint for_each {A S : Type} (body : A → S → io S) (l : list A) (s : S) : io S :=
  match l with
  | [] => mret s
  | x :: l' => s' ← body x s; for_each body l' s'
  end.

(** ** [main] *)

Definition newline : string := String "010"%char EmptyString.

(** The parsed arguments; an option that was not given is [None]. *)
Record Args : Type := MkArgs {
  source_files : option string;
  source_jars : option string;
  output_mapping_file : option string
}.

(** [if args.x:] holds for an option that was given and is not empty. *)
Definition given (a : option string) : option string :=
  match a with
  | Some s => if truthy s then Some s else None
  | None => None
  end.

(** [if entry: class_to_header_map[entry[0]] = entry[1]] *)
Definition record_entry (entry : option (string * string))
    (class_to_header_map : gmap string string) : gmap string string :=
  match entry with
  | Some e => <[e.1 := e.2]> class_to_header_map
  | None => class_to_header_map
  end.

(** The body of the loop over the source files. *)
Definition scan_source_file (source_file : string)
    (class_to_header_map : gmap string string) : io (gmap string string) :=
  f ← open_read source_file;
  r ← lift (_get_file_map_entry source_file f);
  mret (record_entry r.1 class_to_header_map).

(** The body of the loop over the names of an archive. *)
Definition scan_jar_entry (source_jar : string) (jar : list (string * string))
    (jar_entry : string) (class_to_header_map : gmap string string)
    : io (gmap string string) :=
  if endswith ".java" jar_entry then
    jar_entry_file ← jar_open source_jar jar jar_entry;
    r ← lift (_get_file_map_entry jar_entry jar_entry_file);
    mret (record_entry r.1 class_to_header_map)
  else mret class_to_header_map.

(** The body of the loop over the source jars. *)
Definition scan_source_jar (source_jar : string)
    (class_to_header_map : gmap string string) : io (gmap string string) :=
  jar ← open_jar source_jar;
  for_each (scan_jar_entry source_jar jar) (namelist jar) class_to_header_map.

(** Lines 98 to 119 of the script: the mapping once every input is
    processed. *)
Definition collect (args : Args) : io (gmap string string) :=
  let class_to_header_map := ∅ in
  class_to_header_map ←
    match given (source_files args) with
    | Some listed => for_each scan_source_file (split_comma listed) class_to_header_map
    | None => mret class_to_header_map
    end;
  match given (source_jars args) with
  | Some listed => for_each scan_source_jar (split_comma listed) class_to_header_map
  | None => mret class_to_header_map
  end.

(** [sorted(class_to_header_map)]: the keys in ascending order. *)
Definition sorted (class_to_header_map : gmap string string) : list string :=
  merge_sort String.le (map_to_list class_to_header_map).*1.

(** [class_to_header_map[class_name]] *)
Definition dict_get (class_to_header_map : gmap string string) (class_name : string)
    : result string :=
  match class_to_header_map !! class_name with
  | Some header_path => Ok header_path
  | None => Raise (KeyError class_name)
  end.

(** The body of the loop that writes the mapping file. *)
Definition write_line (out : string) (class_to_header_map : gmap string string)
    (class_name : string) (_ : unit) : io unit :=
  header_path ← lift (dict_get class_to_header_map class_name);
  write out (class_name +:+ "=" +:+ header_path +:+ newline).

(** Lines 122 to 126: the mapping file. *)
Definition write_mapping (args : Args) (class_to_header_map : gmap string string)
    : io unit :=
  match given (output_mapping_file args) with
  | Some out =>
      _ ← open_write out;
      for_each (write_line out class_to_header_map) (sorted class_to_header_map) ()
  | None => mret ()
  end.

(** [main()], from the parsed arguments on. *)
Definition main (args : Args) : io unit :=
  class_to_header_map ← collect args;
  write_mapping args class_to_header_map.

(** ** Vocabulary of the statements *)

(** The string is headed by a character of the class. *)
Definition headed (f : ascii → bool) (s : string) : bool :=
  match s with
  | String c _ => f c
  | EmptyString => false
  end.

(** [s] reads [pre], the keyword, white space, [name], a semicolon and
    [rest]: what the pattern matches at offset [len pre], told without the
    matcher. *)
Definition declares (s pre name rest : string) : Prop :=
  ∃ ws, s = pre +:+ "package" +:+ ws +:+ name +:+ ";" +:+ rest
        ∧ ws ≠ "" ∧ all_chars isspace ws = true
        ∧ name ≠ "" ∧ all_chars PackageRe.is_name_char name = true.

(** The characters of the trimmed line before the keyword of a match. *)
Definition preceding_of (line : string) (m : PackageRe.re_match) : string :=
  slice (strip line) 0 (PackageRe.start1 m).

Fixpoint last_char (s : string) : option ascii :=
  match s with
  | EmptyString => None
  | String c EmptyString => Some c
  | String _ s' => last_char s'
  end.

(** The preceding characters end in white space, in [;] or in [*/]. *)
Definition ends_at_boundary (pre : string) : bool :=
  match last_char pre with
  | Some c => isspace c
  | None => false
  end || endswith ";" pre || endswith "*/" pre.

(** Where a scan for block comments stands: in code, in code after a
    slash, in a comment, in a comment after a star. *)
Inductive lexer_state : Type := InCode | AfterSlash | InComment | AfterStar.

Definition lexer_step (st : lexer_state) (c : ascii) : lexer_state :=
  match st with
  | InCode => if Ascii.eqb c "/" then AfterSlash else InCode
  | AfterSlash =>
      if Ascii.eqb c "*" then InComment
      else if Ascii.eqb c "/" then AfterSlash else InCode
  | InComment => if Ascii.eqb c "*" then AfterStar else InComment
  | AfterStar =>
      if Ascii.eqb c "/" then InCode
      else if Ascii.eqb c "*" then AfterStar else InComment
  end.

Fixpoint lexer_run (st : lexer_state) (s : string) : lexer_state :=
  match s with
  | EmptyString => st
  | String c s' => lexer_run (lexer_step st c) s'
  end.

(** The characters open a block comment that they do not close. *)
Definition unclosed_block_comment (pre : string) : bool :=
  match lexer_run InCode pre with
  | InComment | AfterStar => true
  | InCode | AfterSlash => false
  end.

(** Every keyword of the string is followed by white space, a dotted name
    and white space before the semicolon. *)
Definition spaced_before_semicolon (s : string) : Prop :=
  ∀ pre suf, s = pre +:+ "package" +:+ suf →
    ∃ ws name ws' rest, suf = ws +:+ name +:+ ws' +:+ ";" +:+ rest
      ∧ ws ≠ "" ∧ all_chars isspace ws = true
      ∧ name ≠ "" ∧ all_chars PackageRe.is_name_char name = true
      ∧ ws' ≠ "" ∧ all_chars isspace ws' = true.

(** A directory prefix: empty, or ending in the separator. *)
Definition is_dir_prefix (dir : string) : bool :=
  negb (truthy dir) || endswith "/" dir.

(** A file name stem: no separator, and not made of dots only. *)
Definition is_stem (stem : string) : bool :=
  (rfind "/" stem =? -1) && negb (all_chars (Ascii.eqb ".") stem).

(** An extension after its dot: no separator and no further dot. *)
Definition is_ext (ext : string) : bool :=
  (rfind "/" ext =? -1) && (rfind "." ext =? -1).

(** A decision procedure for [spaced_before_semicolon]: what follows one
    keyword, and every keyword of a string. *)
Definition spaced_here (suf : string) : bool :=
  let '(ws, s2) := span isspace suf in
  let '(name, s3) := span PackageRe.is_name_char s2 in
  let '(ws', s4) := span isspace s3 in
  truthy ws && truthy name && truthy ws' && headed (Ascii.eqb ";") s4.

Fixpoint every_keyword (check : string → bool) (s : string) : bool :=
  match PackageRe.literal "package" s with
  | Some suf => check suf
  | None => true
  end
  && match s with
     | EmptyString => true
     | String _ s' => every_keyword check s'
     end.

(** ** Source units *)

(** The value [_get_file_map_entry] returns for a unit, given as its
    identifier and its lines. *)
Definition unit_entry (u : string * list string) : option (string * string) :=
  match _get_file_map_entry u.1 u.2 with
  | Ok (entry, _) => entry
  | Raise _ => None
  end.

(** The mapping after the units were processed in the order of the list. *)
Definition table_of (units : list (string * list string))
    (class_to_header_map : gmap string string) : gmap string string :=
  foldl (λ m u, record_entry (unit_entry u) m) class_to_header_map units.

(** The unit of a loose file, and of a member of an archive: only a
    member whose name ends in [.java] is one, and its identifier is the
    name of the member. *)
Definition source_unit (files : gmap string string) (path : string)
    : option (string * list string) :=
  (λ content, (path, readlines content)) <$> files !! path.

Definition jar_unit (jar : list (string * string)) (name : string)
    : option (string * list string) :=
  if endswith ".java" name
  then (λ content, (name, readlines content)) <$> getinfo jar name
  else None.

Definition loose_units (files : gmap string string) (paths : list string)
    : list (string * list string) :=
  omap (source_unit files) paths.

Definition jar_units (jar : list (string * string)) (names : list string)
    : list (string * list string) :=
  omap (jar_unit jar) names.

Fixpoint archive_units (archives : gmap string (list (string * string)))
    (paths : list string) : list (string * list string) :=
  match paths with
  | [] => []
  | path :: paths' =>
      match archives !! path with
      | Some jar => jar_units jar (namelist jar)
      | None => []
      end ++ archive_units archives paths'
  end.

(** The units of a run in the order they are processed: the loose files
    as listed, then the members of the archives, archive after archive as
    listed, each in the order of its directory. *)
Definition input_units (args : Args) (w : world) : list (string * list string) :=
  match given (source_files args) with
  | Some paths => loose_units (files w) (split_comma paths)
  | None => []
  end
  ++ match given (source_jars args) with
     | Some paths => archive_units (archives w) (split_comma paths)
     | None => []
     end.

(** The events of reading the inputs. *)
Definition is_input_event (e : event) : bool :=
  match e with
  | OpenedOutput _ => false
  | _ => true
  end.

(** From [w] to [w'] the run has only read: the files are what they
    were, and the trace grew by events of reading. *)
Definition reads_only (w w' : world) : Prop :=
  files w' = files w ∧ archives w' = archives w
  ∧ ∃ evs, trace w' = trace w ++ evs
           ∧ Forall (λ e, is_input_event e = true) evs.

(** The names that [scan_jar_entry] opens. *)
Definition java_names (names : list string) : list string :=
  filter (λ n, endswith ".java" n = true) names.

(** One line of the mapping file, and the text of several. *)
Definition mapping_line (entry : string * string) : string :=
  entry.1 +:+ "=" +:+ entry.2 +:+ newline.

Definition join (parts : list string) : string :=
  foldr String.append EmptyString parts.

(** No unit of the list has an entry for the qualified name. *)
Definition none_for (qualified_name : string) (units : list (string * list string))
    : Prop :=
  Forall (λ u, fst <$> unit_entry u ≠ Some qualified_name) units.

(** ** Sample inputs *)

Definition sample_loose : gmap string string :=
  {[ "A.java" := "package p1;" +:+ newline +:+ "class A {}" +:+ newline;
     "B.java" := "class B {}" +:+ newline;
     "a/Foo.java" := "package p;" +:+ newline ]}.

Definition sample_jar : list (string * string) :=
  [ ("META-INF/MANIFEST.MF", "Manifest-Version: 1.0" +:+ newline);
    ("pkg/Entry.java", "package pkg;" +:+ newline +:+ "class Entry {}" +:+ newline);
    ("pkg/Other.JAVA", "package other;" +:+ newline);
    ("b/Foo.java", "/** Foo. */ package p;" +:+ newline);
    ("c/Last.java", "package z;" +:+ newline) ].

(** The mapping of the sample run: [p.Foo] is declared by [a/Foo.java]
    and then by the member [b/Foo.java]. *)
Definition sample_mapping : gmap string string :=
  {[ "p1.A" := "A.h"; "p.Foo" := "b/Foo.h"; "pkg.Entry" := "pkg/Entry.h";
     "z.Last" := "c/Last.h" ]}.

Definition sample_args : Args :=
  MkArgs (Some "A.java,B.java,a/Foo.java") (Some "lib.srcjar") (Some "out").

Definition sample_world : world :=
  World sample_loose {[ "lib.srcjar" := sample_jar ]} [].

(** ** Vocabulary of the further properties *)

(** White space only. *)
Definition blank (s : string) : bool := all_chars isspace s.

(** Two lines that are one text between different margins: another
    indentation, another line terminator. *)
Definition same_text (l l' : string) : Prop :=
  ∃ core lead trail lead' trail',
    l = lead +:+ core +:+ trail ∧ l' = lead' +:+ core +:+ trail'
    ∧ blank lead = true ∧ blank trail = true
    ∧ blank lead' = true ∧ blank trail' = true.

(** The character does not occur in the string. *)
Definition lacks (c : ascii) (s : string) : bool := rfind c s =? -1.

Definition tab : string := String "009"%char EmptyString.
Definition cr : string := String "013"%char EmptyString.

(** A file name with no extension to split off: dots, then characters
    among which there is neither a dot nor a separator. *)
Definition is_plain_name (dots word : string) : bool :=
  all_chars (Ascii.eqb ".") dots && lacks "." word && lacks "/" word.

(** The paths an option lists: none when it was not given or is empty. *)
Definition listed (a : option string) : list string :=
  match given a with
  | Some paths => split_comma paths
  | None => []
  end.

(** Every listed source file and every listed archive is there. *)
Definition inputs_exist (args : Args) (w : world) : Prop :=
  Forall (λ path, is_Some (files w !! path)) (listed (source_files args))
  ∧ Forall (λ path, is_Some (archives w !! path)) (listed (source_jars args)).

(** The events of reading an archive. *)
Definition is_jar_event (e : event) : bool :=
  match e with
  | OpenedJar _ | OpenedJarEntry _ _ => true
  | _ => false
  end.

(** The qualified names of the entries of the units, unit by unit. *)
Definition keys_of (units : list (string * list string)) : list string :=
  omap (λ u, fst <$> unit_entry u) units.

(** The text of the mapping file for a mapping. *)
Definition render (m : gmap string string) : string :=
  join ((λ k, mapping_line (k, default "" (m !! k))) <$> sorted m).

(** * Properties *)

(** ** Strings *)

#[local] Arguments String.append : simpl nomatch.

(** Proves [Forall P l] for an explicit list, element by element. *)
Ltac forall_each tac :=
  repeat (apply Forall_cons_2; [tac|]); apply Forall_nil_2.

Section strings.
Implicit Types (s t u : string) (c : ascii) (f : ascii → bool).

Lemma app_cons c s t : String c s +:+ t = String c (s +:+ t).
Proof. reflexivity. Qed.

Lemma app_empty_r s : s +:+ "" = s.
Proof. induction s as [|c s IH]; simpl; [done | by rewrite IH]. Qed.

Lemma app_assoc' s t u : (s +:+ t) +:+ u = s +:+ t +:+ u.
Proof. induction s as [|c s IH]; simpl; [done | by rewrite IH]. Qed.

Lemma length_app' s t :
  String.length (s +:+ t) = (String.length s + String.length t)%nat.
Proof. induction s as [|c s IH]; simpl; [done | by rewrite IH]. Qed.

Lemma len_app s t : len (s +:+ t) = len s + len t.
Proof. unfold len. rewrite length_app'. lia. Qed.

Lemma len_nonneg s : 0 ≤ len s.
Proof. unfold len. lia. Qed.

Lemma len_cons c s : len (String c s) = len s + 1.
Proof. unfold len. simpl. lia. Qed.

Lemma truthy_true s : truthy s = true ↔ s ≠ "".
Proof. destruct s; simpl; split; intros; congruence. Qed.

Lemma truthy_false s : truthy s = false ↔ s = "".
Proof. destruct s; simpl; split; intros; congruence. Qed.

Lemma substring_0_app s t :
  String.substring 0 (String.length s) (s +:+ t) = s.
Proof. induction s as [|c s IH]; simpl; [by destruct t | by rewrite IH]. Qed.

Lemma substring_skip_app s t n :
  String.substring (String.length s) n (s +:+ t) = String.substring 0 n t.
Proof. induction s as [|c s IH]; simpl; [done | by rewrite IH]. Qed.

Lemma substring_0_all s : String.substring 0 (String.length s) s = s.
Proof. induction s as [|c s IH]; simpl; [done | by rewrite IH]. Qed.

Lemma slice_to_app s t : slice (s +:+ t) 0 (len s) = s.
Proof.
  unfold slice, clamp. rewrite len_app.
  pose proof (len_nonneg s). pose proof (len_nonneg t).
  replace (0 <? 0) with false by done.
  replace (len s <? 0) with false by (symmetry; apply Z.ltb_ge; lia).
  rewrite Z.min_l, Z.min_l by lia. rewrite Z.sub_0_r.
  unfold len. rewrite Nat2Z.id. apply substring_0_app.
Qed.

Lemma slice_from_app s t : slice_from (s +:+ t) (len s) = t.
Proof.
  unfold slice_from, slice, clamp. rewrite len_app.
  pose proof (len_nonneg s). pose proof (len_nonneg t).
  replace (len s <? 0) with false by (symmetry; apply Z.ltb_ge; lia).
  replace (len s + len t <? 0) with false by (symmetry; apply Z.ltb_ge; lia).
  rewrite Z.min_l, Z.min_l by lia.
  replace (len s + len t - len s) with (len t) by lia.
  unfold len. rewrite !Nat2Z.id, substring_skip_app. apply substring_0_all.
Qed.

Lemma endswith_spec suf s : endswith suf s = true ↔ ∃ p, s = p +:+ suf.
Proof.
  induction s as [|c s IH]; cbn [endswith].
  - destruct (String.eqb_spec "" suf) as [<-|Hne].
    + split; [by exists "" | done].
    + split; [done | intros [p Hp]]. destruct p; simpl in Hp; [done | discriminate].
  - destruct (String.eqb_spec (String c s) suf) as [<-|Hne].
    + split; [by exists "" | done].
    + rewrite IH. split.
      * intros [p ->]. by exists (String c p).
      * intros [p Hp]. destruct p as [|c' p]; simpl in Hp; [congruence|].
        injection Hp as -> ->. by exists p.
Qed.

Lemma startswith_spec p s : startswith p s = true ↔ ∃ t, s = p +:+ t.
Proof.
  unfold startswith. revert s. induction p as [|a p IH]; intros s; simpl.
  - split; [intros _; by exists s | by destruct s].
  - destruct s as [|b s]; simpl.
    + split; [done | intros [t Ht]; discriminate].
    + destruct (Ascii.ascii_dec a b) as [->|Hne].
      * rewrite IH. split; intros [t Ht]; exists t; congruence.
      * split; [done | intros [t Ht]; congruence].
Qed.

Lemma startswith_cons a p b s :
  startswith (String a p) (String b s) = Ascii.eqb a b && startswith p s.
Proof.
  unfold startswith. cbn [String.prefix].
  by destruct (Ascii.ascii_dec a b), (Ascii.eqb_spec a b).
Qed.

End strings.

(** ** The pattern *)

Section pattern.
Import PackageRe.
Implicit Types (s t pre name rest : string) (c : ascii) (f : ascii → bool).

Lemma literal_spec lit s r : literal lit s = Some r ↔ s = lit +:+ r.
Proof.
  revert s. induction lit as [|a lit IH]; intros s; simpl.
  - split; congruence.
  - destruct s as [|b s]; [split; discriminate|].
    destruct (Ascii.eqb_spec a b) as [->|Hne].
    + rewrite IH. split; congruence.
    + split; [discriminate | congruence].
Qed.

Lemma span_app f s : (span f s).1 +:+ (span f s).2 = s.
Proof.
  induction s as [|c s IH]; simpl; [done|].
  destruct (f c); [|done]. destruct (span f s) as [run rest]. simpl in *.
  by rewrite IH.
Qed.

Lemma span_all f s : all_chars f (span f s).1 = true.
Proof.
  induction s as [|c s IH]; simpl; [done|].
  destruct (f c) eqn:Hc; [|done]. destruct (span f s) as [run rest]. simpl in *.
  by rewrite Hc, IH.
Qed.

Lemma span_stop f s : headed f (span f s).2 = false.
Proof.
  induction s as [|c s IH]; simpl; [done|].
  destruct (f c) eqn:Hc; [|done]. by destruct (span f s) as [run rest].
Qed.

(** A run of the class followed by something else is what [span] takes. *)
Lemma span_maximal f run rest :
  all_chars f run = true → headed f rest = false →
  span f (run +:+ rest) = (run, rest).
Proof.
  intros Hrun Hrest. induction run as [|c run IH]; simpl in *.
  - destruct rest as [|c rest]; simpl in *; [done | by rewrite Hrest].
  - apply andb_true_iff in Hrun as [-> Hrun]. by rewrite IH.
Qed.

Lemma name_char_not_space c : is_name_char c = true → isspace c = false.
Proof. destruct c as [[] [] [] [] [] [] [] []]; vm_compute; congruence. Qed.

Lemma semicolon_not_name_char : is_name_char ";" = false.
Proof. reflexivity. Qed.

Lemma headed_app f s t : s ≠ "" → headed f (s +:+ t) = headed f s.
Proof. by destruct s. Qed.

Lemma all_chars_headed f s : all_chars f s = true → s ≠ "" → headed f s = true.
Proof. destruct s as [|c s]; simpl; [done|]. by intros [-> _]%andb_true_iff. Qed.

(** The matcher and the reading of the pattern agree. *)
Lemma match_here_spec s name rest :
  match_here s = Some (name, rest) ↔ declares s "" name rest.
Proof.
  unfold match_here, declares. split.
  - destruct (literal "package" s) as [s1|] eqn:Hlit; [|done].
    apply literal_spec in Hlit as ->.
    pose proof (span_app isspace s1) as Happ1.
    pose proof (span_all isspace s1) as Hall1.
    destruct (span isspace s1) as [ws s2]. simpl in Happ1, Hall1.
    destruct (truthy ws) eqn:Hws; [|done]. apply truthy_true in Hws.
    pose proof (span_app is_name_char s2) as Happ2.
    pose proof (span_all is_name_char s2) as Hall2.
    destruct (span is_name_char s2) as [nm s3]. simpl in Happ2, Hall2.
    destruct (truthy nm) eqn:Hnm; [|done]. apply truthy_true in Hnm.
    destruct s3 as [|c s3]; [done|].
    destruct (Ascii.eqb_spec c ";") as [->|]; [|done].
    intros [= <- <-]. exists ws. by subst s1 s2.
  - intros (ws & -> & Hws & Hall1 & Hnm & Hall2). simpl.
    change (";" +:+ rest) with (String ";" rest) in *.
    rewrite (span_maximal isspace ws (name +:+ String ";" rest)); [|done|].
    2:{ rewrite headed_app by done. destruct name as [|c name]; [done|].
        simpl in *. apply andb_true_iff in Hall2 as [Hc _].
        by apply name_char_not_space. }
    apply truthy_true in Hws as ->.
    rewrite (span_maximal is_name_char name (String ";" rest)); [|done..].
    apply truthy_true in Hnm as ->. done.
Qed.

(** At one offset the pattern matches in one way at most. *)
Lemma match_here_unique s name rest name' rest' :
  declares s "" name rest → declares s "" name' rest' →
  name = name' ∧ rest = rest'.
Proof.
  intros H1%match_here_spec H2%match_here_spec. split; congruence.
Qed.

Lemma search_from_none i s :
  search_from i s = None ↔ ∀ pre suf, s = pre +:+ suf → match_here suf = None.
Proof.
  revert i. induction s as [|c s IH]; intros i; cbn [search_from].
  - split.
    + intros H pre suf Hs. destruct pre; [|done]. simpl in Hs. subst suf.
      by destruct (match_here "") as [[??]|].
    + intros H. by rewrite (H "" "").
  - split.
    + intros H pre suf Hs.
      destruct (match_here (String c s)) as [[??]|] eqn:Hm; [done|].
      destruct pre as [|c' pre]; simpl in Hs; [by subst|].
      injection Hs as -> ->. by eapply IH.
    + intros H. rewrite (H "" (String c s)) by done.
      apply IH. intros pre suf ->. by apply (H (String c pre)).
Qed.

(** [search] answers the leftmost offset at which the pattern matches. *)
Lemma search_from_sound i s m :
  search_from i s = Some m →
  ∃ pre suf rest, s = pre +:+ suf ∧ start1 m = i + len pre
    ∧ match_here suf = Some (group2 m, rest)
    ∧ ∀ p1 p2, pre = p1 +:+ p2 → p2 ≠ "" → match_here (p2 +:+ suf) = None.
Proof.
  revert i. induction s as [|c s IH]; intros i; cbn [search_from].
  - destruct (match_here "") as [[nm rest]|] eqn:Hm; [|done].
    intros [= <-]. exists "", "", rest. simpl.
    repeat split; [unfold len; simpl; lia | done |].
    intros p1 p2 Hp. by destruct p1, p2.
  - destruct (match_here (String c s)) as [[nm rest]|] eqn:Hm.
    + intros [= <-]. exists "", (String c s), rest. simpl.
      repeat split; [unfold len; simpl; lia | done |].
      intros p1 p2 Hp. by destruct p1, p2.
    + intros (pre & suf & rest & -> & Hstart & Hsuf & Hleft)%IH.
      exists (String c pre), suf, rest.
      repeat split; [rewrite len_cons; lia | done |].
      intros p1 p2 Hp Hp2. destruct p1 as [|c1 p1]; simpl in Hp.
      * subst p2. by rewrite app_cons.
      * injection Hp as -> ->. by apply (Hleft p1 p2).
Qed.

Lemma search_from_complete i pre suf name rest :
  match_here suf = Some (name, rest) →
  (∀ p1 p2, pre = p1 +:+ p2 → p2 ≠ "" → match_here (p2 +:+ suf) = None) →
  search_from i (pre +:+ suf) = Some (ReMatch (i + len pre) name).
Proof.
  intros Hsuf. revert i. induction pre as [|c pre IH]; intros i Hleft.
  - simpl. unfold len. simpl. rewrite Z.add_0_r.
    destruct suf; cbn [search_from]; by rewrite Hsuf.
  - change (String c pre +:+ suf) with (String c (pre +:+ suf)).
    cbn [search_from].
    assert (match_here (String c (pre +:+ suf)) = None) as ->
      by by apply (Hleft "" (String c pre)).
    rewrite IH.
    + f_equal. f_equal. rewrite len_cons. lia.
    + intros p1 p2 -> Hp2. by apply (Hleft (String c p1)).
Qed.

(** What a successful [search] says about the line: the preceding
    characters, the keyword, white space, the name and the semicolon
    right after it. *)
Lemma search_declares s m :
  search s = Some m →
  ∃ pre rest, declares s pre (group2 m) rest
    ∧ start1 m = len pre ∧ slice s 0 (start1 m) = pre.
Proof.
  intros (pre & suf & rest & -> & Hstart & Hsuf & _)%search_from_sound.
  apply match_here_spec in Hsuf as (ws & -> & Hws).
  exists pre, rest. split; [by exists ws|]. simpl in Hstart.
  split; [done|]. rewrite Hstart. apply slice_to_app.
Qed.

End pattern.

(** ** The loop body *)

Section loop_body.
Import PackageRe.
Implicit Types (line s pre : string) (m : re_match).

Lemma getitem_last s :
  s ≠ "" → ∃ c, last_char s = Some c ∧ getitem s (len s - 1) = Ok c.
Proof.
  intros Hs. unfold getitem.
  assert (0 ≤ len s - 1) as Hge.
  { destruct s; [done|]. rewrite len_cons. pose proof (len_nonneg s). lia. }
  replace (len s - 1 <? 0) with false by (symmetry; apply Z.ltb_ge; lia).
  replace (len s - 1 <? 0) with false by (symmetry; apply Z.ltb_ge; lia).
  replace (Z.to_nat (len s - 1)) with (String.length s - 1)%nat by (unfold len; lia).
  clear Hge. induction s as [|c s IH]; [done|].
  destruct s as [|c' s]; [by exists c|].
  destruct IH as (d & Hd & Hget); [done|].
  exists d. split; [done|].
  simpl in Hget |- *. by rewrite Nat.sub_0_r in Hget.
Qed.

Lemma startswith_comment_preceding pre t :
  pre ≠ "" →
  startswith "//" (pre +:+ "package" +:+ t) = startswith "//" pre.
Proof.
  intros Hpre. destruct pre as [|a [|b pre]]; [done|..];
    rewrite ?app_cons, !startswith_cons.
  - simpl. by rewrite andb_false_r.
  - by destruct pre.
Qed.

(** The verdict on a line the pattern matches, from the characters that
    precede the keyword. *)
Lemma examine_line_matched line m :
  search (strip line) = Some m →
  examine_line line =
    if truthy (preceding_of line m) then
      if startswith "//" (preceding_of line m) then Ok Continue
      else if ends_at_boundary (preceding_of line m)
           then Ok (Return (group2 m)) else Ok Continue
    else Ok (Return (group2 m)).
Proof.
  intros Hm. unfold examine_line. rewrite Hm. fold (preceding_of line m).
  destruct (truthy (preceding_of line m)) eqn:Hpre; [|done].
  destruct (startswith "//" (preceding_of line m)); [done|].
  apply truthy_true in Hpre.
  destruct (getitem_last _ Hpre) as (c & Hlast & ->).
  unfold ends_at_boundary. rewrite Hlast. simpl.
  by destruct (isspace c || endswith ";" (preceding_of line m)
               || endswith "*/" (preceding_of line m)).
Qed.

Lemma examine_line_unmatched line :
  search (strip line) = None → examine_line line = Ok Continue.
Proof. intros Hm. unfold examine_line. by rewrite Hm. Qed.

(** The loop body never raises. *)
Lemma examine_line_total line : ∃ v, examine_line line = Ok v.
Proof.
  destruct (search (strip line)) as [m|] eqn:Hm.
  - rewrite (examine_line_matched _ _ Hm).
    repeat (match goal with |- context [if ?b then _ else _] => destruct b end);
      eauto.
  - rewrite (examine_line_unmatched _ Hm). eauto.
Qed.

(** A line is either accepted or skipped. *)
Lemma not_accepted_continue line :
  (∀ name, examine_line line ≠ Ok (Return name)) → examine_line line = Ok Continue.
Proof.
  intros Hno. destruct (examine_line_total line) as [[|name] Hv]; [done|].
  by destruct (Hno name).
Qed.

Lemma startswith_comment_line line m :
  search (strip line) = Some m → preceding_of line m ≠ "" →
  startswith "//" (strip line) = startswith "//" (preceding_of line m).
Proof.
  intros Hm Hpre. unfold preceding_of in *.
  destruct (search_declares _ _ Hm) as (pre & rest & (ws & Hs & _) & _ & Hslice).
  rewrite Hslice in *. rewrite Hs. by apply startswith_comment_preceding.
Qed.

Lemma unclosed_block_comment_nonempty pre :
  unclosed_block_comment pre = true → pre ≠ "".
Proof. by intros H ->. Qed.

End loop_body.

(** ** Paths *)

Section paths.
Import PosixPath.
Implicit Types (p s t dir stem ext : string) (c : ascii).

Lemma rfind_bounds c s : -1 ≤ rfind c s < len s.
Proof.
  induction s as [|x s IH]; [done|]. rewrite len_cons. cbn [rfind].
  destruct (Z.leb_spec 0 (rfind c s)); [lia|].
  pose proof (len_nonneg s). destruct (Ascii.eqb x c); lia.
Qed.

Lemma rfind_app c s t :
  rfind c (s +:+ t) = if 0 <=? rfind c t then len s + rfind c t else rfind c s.
Proof.
  induction s as [|x s IH]; simpl.
  - pose proof (rfind_bounds c t). unfold len. simpl.
    destruct (Z.leb_spec 0 (rfind c t)); lia.
  - rewrite IH, len_cons. pose proof (len_nonneg s).
    destruct (Z.leb_spec 0 (rfind c t)).
    + replace (0 <=? len s + rfind c t) with true by (symmetry; apply Z.leb_le; lia).
      lia.
    + done.
Qed.

Lemma rfind_sep_dir dir t :
  is_dir_prefix dir = true → rfind "/" t = -1 →
  rfind "/" (dir +:+ t) = len dir - 1.
Proof.
  intros Hdir Ht. rewrite rfind_app, Ht. simpl.
  apply orb_true_iff in Hdir as [Hdir|Hdir].
  - apply negb_true_iff, truthy_false in Hdir as ->. done.
  - apply endswith_spec in Hdir as [d ->].
    rewrite rfind_app, len_app. simpl. change (len "/") with 1. lia.
Qed.

Lemma slice_from_0 s : slice_from s 0 = s.
Proof. apply (slice_from_app "" s). Qed.

Lemma basename_app dir t :
  is_dir_prefix dir = true → rfind "/" t = -1 → basename (dir +:+ t) = t.
Proof.
  intros Hdir Ht. unfold basename. rewrite rfind_sep_dir by done.
  replace (len dir - 1 + 1) with (len dir) by lia. apply slice_from_app.
Qed.

Lemma get_app_head s c t : String.get (String.length s) (s +:+ String c t) = Some c.
Proof. induction s as [|x s IH]; simpl; [done | by rewrite IH]. Qed.

Lemma getitem_app_head s c t : getitem (s +:+ String c t) (len s) = Ok c.
Proof.
  unfold getitem. pose proof (len_nonneg s).
  replace (len s <? 0) with false by (symmetry; apply Z.ltb_ge; lia).
  replace (len s <? 0) with false by (symmetry; apply Z.ltb_ge; lia).
  unfold len. by rewrite Nat2Z.id, get_app_head.
Qed.

Lemma getitem_in_range s i : 0 ≤ i < len s → ∃ c, getitem s i = Ok c.
Proof.
  intros Hi. unfold getitem.
  replace (i <? 0) with false by (symmetry; apply Z.ltb_ge; lia).
  replace (i <? 0) with false by (symmetry; apply Z.ltb_ge; lia).
  assert (Z.to_nat i < String.length s)%nat as Hn by (unfold len in Hi; lia).
  clear Hi. revert s Hn. induction (Z.to_nat i) as [|n IH]; intros [|c s] Hn;
    simpl in *; try lia; eauto.
  apply IH. lia.
Qed.

(** The loop of [splitext] finds the first character of the name that
    is not a dot. *)
Lemma splitext_scan_finds s : ∀ a b p,
  p = a +:+ s +:+ b → all_chars (Ascii.eqb ".") s = false →
  splitext_scan (String.length s) p (len a) (len a + len s)
  = Ok (Some (slice_to p (len a + len s), slice_from p (len a + len s))).
Proof.
  induction s as [|c s IH]; intros a b p Hp Hs; [done|].
  cbn [splitext_scan String.length]. rewrite len_cons.
  pose proof (len_nonneg s).
  replace (len a <? len a + (len s + 1)) with true by (symmetry; apply Z.ltb_lt; lia).
  rewrite Hp at 1. rewrite app_cons, getitem_app_head. simpl.
  destruct (Ascii.eqb_spec c ".") as [->|Hc]; simpl.
  - simpl in Hs. specialize (IH (a +:+ ".") b p).
    rewrite len_app in IH. change (len ".") with 1 in IH.
    replace (len a + 1 + len s) with (len a + (len s + 1)) in IH by lia.
    apply IH; [|done]. by rewrite Hp, app_assoc'.
  - done.
Qed.

Lemma splitext_app dir stem ext :
  is_dir_prefix dir = true → is_stem stem = true → is_ext ext = true →
  splitext (dir +:+ stem +:+ "." +:+ ext) = Ok (dir +:+ stem, "." +:+ ext).
Proof.
  intros Hdir [Hsep%Z.eqb_eq Hdots%negb_true_iff]%andb_true_iff
    [Hesep%Z.eqb_eq Hedot%Z.eqb_eq]%andb_true_iff.
  unfold splitext.
  assert (rfind "/" (stem +:+ "." +:+ ext) = -1) as Hsep'.
  { rewrite rfind_app, rfind_app, Hesep. simpl. by rewrite Hsep. }
  rewrite rfind_sep_dir by done.
  assert (rfind "." (dir +:+ stem +:+ "." +:+ ext) = len dir + len stem) as ->.
  { rewrite <-app_assoc', rfind_app, rfind_app, Hedot, len_app. simpl. lia. }
  assert (0 < len stem) as Hlen.
  { destruct stem; [done|]. rewrite len_cons. pose proof (len_nonneg stem). lia. }
  replace (len dir - 1 <? len dir + len stem) with true
    by (symmetry; apply Z.ltb_lt; lia).
  replace (len dir - 1 + 1) with (len dir) by lia.
  replace (Z.to_nat (len dir + len stem - len dir)) with (String.length stem)
    by (unfold len; lia).
  rewrite (splitext_scan_finds stem dir ("." +:+ ext)) by done. simpl.
  rewrite <-len_app. f_equal. f_equal.
  - unfold slice_to. rewrite <-app_assoc'. apply slice_to_app.
  - rewrite <-app_assoc'. apply slice_from_app.
Qed.

Lemma splitext_scan_total fuel p : ∀ i d,
  0 ≤ i → d ≤ len p → ∃ r, splitext_scan fuel p i d = Ok r.
Proof.
  induction fuel as [|fuel IH]; intros i d Hi Hd; simpl; [eauto|].
  destruct (Z.ltb_spec i d); [|eauto].
  destruct (getitem_in_range p i) as [c ->]; [lia|]. simpl.
  destruct (negb (Ascii.eqb c ".")); [eauto|]. apply IH; lia.
Qed.

(** [splitext] never raises. *)
Lemma splitext_total p : ∃ r, splitext p = Ok r.
Proof.
  unfold splitext. destruct (Z.ltb_spec (rfind "/" p) (rfind "." p)); [|eauto].
  pose proof (rfind_bounds "/" p). pose proof (rfind_bounds "." p).
  destruct (splitext_scan_total (Z.to_nat (rfind "." p - (rfind "/" p + 1))) p
              (rfind "/" p + 1) (rfind "." p)) as [r ->]; [lia..|].
  simpl. destruct r; eauto.
Qed.

Lemma make_entry_total path name : ∃ entry, make_entry path name = Ok entry.
Proof.
  unfold make_entry.
  destruct (splitext_total (basename path)) as [base ->].
  destruct (splitext_total path) as [root ->]. simpl. eauto.
Qed.

Lemma is_stem_no_sep stem ext :
  is_stem stem = true → is_ext ext = true → rfind "/" (stem +:+ "." +:+ ext) = -1.
Proof.
  intros [Hsep%Z.eqb_eq _]%andb_true_iff [Hesep%Z.eqb_eq _]%andb_true_iff.
  rewrite rfind_app, rfind_app, Hesep. simpl. by rewrite Hsep.
Qed.

(** The tuple for a path made of a directory, a stem and an extension. *)
Lemma make_entry_app dir stem ext name :
  is_dir_prefix dir = true → is_stem stem = true → is_ext ext = true →
  make_entry (dir +:+ stem +:+ "." +:+ ext) name
  = Ok (name +:+ "." +:+ stem, dir +:+ stem +:+ ".h").
Proof.
  intros Hdir Hstem Hext. unfold make_entry.
  rewrite basename_app by eauto using is_stem_no_sep.
  assert (splitext (stem +:+ "." +:+ ext) = Ok (stem, "." +:+ ext)) as ->
    by exact (splitext_app "" stem ext eq_refl Hstem Hext).
  rewrite splitext_app by done. simpl. by rewrite app_assoc'.
Qed.

End paths.

(** ** The extractor *)

Section extractor.
Import PackageRe.
Implicit Types (path line name : string) (m : re_match).

Lemma scan_skips path skipped rest :
  Forall (λ l, examine_line l = Ok Continue) skipped →
  _get_file_map_entry path (skipped ++ rest) = _get_file_map_entry path rest.
Proof.
  induction 1 as [|l skipped Hl _ IH]; [done|].
  cbn [app _get_file_map_entry]. by rewrite Hl.
Qed.

Lemma scan_accepts path line name rest entry :
  examine_line line = Ok (Return name) → make_entry path name = Ok entry →
  _get_file_map_entry path (line :: rest) = Ok (Some entry, rest).
Proof. intros Hl He. cbn [_get_file_map_entry]. rewrite Hl. simpl. by rewrite He. Qed.

Lemma scan_rejects path lines :
  Forall (λ l, examine_line l = Ok Continue) lines →
  _get_file_map_entry path lines = Ok (None, []).
Proof.
  intros H. rewrite <-(app_nil_r lines). by rewrite scan_skips.
Qed.

(** The extractor never raises. *)
Lemma _get_file_map_entry_total path lines :
  ∃ r, _get_file_map_entry path lines = Ok r.
Proof.
  induction lines as [|l lines IH]; [by eexists|].
  cbn [_get_file_map_entry].
  destruct (examine_line_total l) as [[|name] ->]; simpl; [done|].
  destruct (make_entry_total path name) as [entry ->]. simpl. eauto.
Qed.

(** The name of an accepted line is the dotted name between the keyword
    and the semicolon of the leftmost match. *)
Lemma accepted_declares line name :
  examine_line line = Ok (Return name) →
  ∃ pre rest, declares (strip line) pre name rest.
Proof.
  intros Hl. destruct (search (strip line)) as [m|] eqn:Hm.
  - destruct (search_declares _ _ Hm) as (pre & rest & Hd & _).
    rewrite (examine_line_matched _ _ Hm) in Hl.
    assert (name = group2 m) as ->; [|eauto].
    repeat (match type of Hl with context [if ?b then _ else _] => destruct b end);
      congruence.
  - by rewrite (examine_line_unmatched _ Hm) in Hl.
Qed.

Lemma ends_at_boundary_iff pre :
  ends_at_boundary pre = true ↔
  (∃ c, last_char pre = Some c ∧ isspace c = true)
  ∨ endswith ";" pre = true ∨ endswith "*/" pre = true.
Proof.
  unfold ends_at_boundary. rewrite !orb_true_iff. split.
  - intros [[H|H]|H]; [|auto..]. destruct (last_char pre) as [c|]; [eauto|done].
  - intros [(c & -> & H)|[H|H]]; auto.
Qed.

Lemma space_not_name_char c : isspace c = true → is_name_char c = false.
Proof.
  intros H. destruct (is_name_char c) eqn:Hc; [|done].
  apply name_char_not_space in Hc. congruence.
Qed.

(** A keyword whose name is followed by white space and only then by a
    semicolon is no match. *)
Lemma spaced_no_match s :
  spaced_before_semicolon s → search s = None.
Proof.
  intros Hsp. apply search_from_none. intros pre suf ->.
  destruct (match_here suf) as [[name rest]|] eqn:Hm; [exfalso|done].
  apply match_here_spec in Hm as (ws & -> & Hws & Hall & Hname & Hnall).
  destruct (Hsp pre (ws +:+ name +:+ ";" +:+ rest) eq_refl)
    as (ws2 & name2 & ws' & rest2 & Heq & Hws2 & Hall2 & Hname2 & Hnall2 & Hws' & Hall').
  assert (span isspace (ws +:+ name +:+ ";" +:+ rest) = (ws, name +:+ ";" +:+ rest)) as H1.
  { apply span_maximal; [done|]. rewrite headed_app by done.
    destruct name as [|c name]; [done|]. simpl in *.
    apply andb_true_iff in Hnall as [Hc _]. by apply name_char_not_space. }
  assert (span isspace (ws2 +:+ name2 +:+ ws' +:+ ";" +:+ rest2)
          = (ws2, name2 +:+ ws' +:+ ";" +:+ rest2)) as H2.
  { apply span_maximal; [done|]. rewrite headed_app by done.
    destruct name2 as [|c name2]; [done|]. simpl in *.
    apply andb_true_iff in Hnall2 as [Hc _]. by apply name_char_not_space. }
  rewrite Heq, H2 in H1. injection H1 as -> Heq'.
  assert (span is_name_char (name +:+ ";" +:+ rest) = (name, ";" +:+ rest)) as H3.
  { by apply span_maximal. }
  assert (span is_name_char (name2 +:+ ws' +:+ ";" +:+ rest2)
          = (name2, ws' +:+ ";" +:+ rest2)) as H4.
  { apply span_maximal; [done|]. rewrite headed_app by done.
    destruct ws' as [|c ws']; [done|]. simpl in *.
    apply andb_true_iff in Hall' as [Hc _]. by apply space_not_name_char. }
  simpl in H3, H4, Heq'. rewrite Heq', H3 in H4. injection H4 as -> Hrest.
  destruct ws' as [|c ws']; [done|]. simpl in Hrest. injection Hrest as <- _.
  done.
Qed.

End extractor.

(** ** Which lines are accepted *)

Section acceptance.
  Import PackageRe.

(** C1, as the code has it.  A line whose preceding characters leave a
    block comment open is skipped exactly when the trimmed line starts
    with [//] or those characters end neither in white space, nor in [;],
    nor in [*/]; so [/*package com.example;] is skipped, and a blank after
    the comment opening is enough to have the line accepted.  A
    declaration that follows a statement (preceding characters ending in
    [;]) or a closed comment (ending in [*/]) is accepted when the line
    does not start with [//]. *)
Theorem unclosed_comment_rule (line : string) (m : re_match) :
  search (strip line) = Some m →
  (unclosed_block_comment (preceding_of line m) = true →
     (examine_line line = Ok Continue ↔
        startswith "//" (strip line) = true
        ∨ ends_at_boundary (preceding_of line m) = false))
  ∧ (truthy (preceding_of line m) = true →
     startswith "//" (strip line) = false →
     endswith ";" (preceding_of line m) = true
       ∨ endswith "*/" (preceding_of line m) = true →
     examine_line line = Ok (Return (group2 m))).
Proof.
  intros Hm. pose proof (examine_line_matched _ _ Hm) as Hex. split.
  - intros Hopen%unclosed_block_comment_nonempty.
    rewrite (startswith_comment_line _ _ Hm Hopen).
    apply truthy_true in Hopen. rewrite Hopen in Hex. rewrite Hex.
    destruct (startswith "//" (preceding_of line m)); [split; by auto|].
    destruct (ends_at_boundary (preceding_of line m)).
    + split; [done | by intros [|]].
    + split; by auto.
  - intros Hpre Hcomment Hend. rewrite Hpre in Hex.
    apply truthy_true in Hpre.
    rewrite (startswith_comment_line _ _ Hm Hpre) in Hcomment.
    rewrite Hcomment in Hex.
    assert (ends_at_boundary (preceding_of line m) = true) as Hb
      by (apply ends_at_boundary_iff; tauto).
    by rewrite Hb in Hex.
Qed.

Lemma unclosed_comment_rule_witness :
  examine_line "/*package com.example;" = Ok Continue
  ∧ examine_line "int x;package a.b;" = Ok (Return "a.b")
  ∧ examine_line "/* note */package a.b;" = Ok (Return "a.b").
Proof.
  split; [|split].
  - apply (proj1 (unclosed_comment_rule "/*package com.example;"
                    (ReMatch 2 "com.example") eq_refl)); [reflexivity|].
    right. reflexivity.
  - apply (proj2 (unclosed_comment_rule "int x;package a.b;"
                    (ReMatch 6 "a.b") eq_refl)); [reflexivity..|].
    left. reflexivity.
  - apply (proj2 (unclosed_comment_rule "/* note */package a.b;"
                    (ReMatch 10 "a.b") eq_refl)); [reflexivity..|].
    right. reflexivity.
Defined.

(** C1, as the claim has it, fails: in [/* package com.example;] the
    preceding characters open a block comment and do not close it, and
    the line is accepted. *)
Lemma unclosed_comment_accepted :
  search (strip "/* package com.example;") = Some (ReMatch 3 "com.example")
  ∧ unclosed_block_comment
      (preceding_of "/* package com.example;" (ReMatch 3 "com.example")) = true
  ∧ examine_line "/* package com.example;" = Ok (Return "com.example")
  ∧ examine_line "/* package com.example;" ≠ Ok Continue
  ∧ _get_file_map_entry "Foo.java" ["/* package com.example;"]
    = Ok (Some ("com.example.Foo", "Foo.h"), []).
Proof. repeat split; try reflexivity. discriminate. Qed.

(** C2.  On a line with a candidate declaration after some preceding
    characters: a trimmed line that starts with [//] is skipped, and the
    scan goes on with the lines that follow; otherwise the line is
    accepted exactly when the last preceding character is white space, or
    the preceding characters end in [;], or they end in [*/].  The line
    [// package com.example;] is not matched, a genuine declaration after
    it is, and [*/ package com.example;] is matched. *)
Theorem preceding_characters_rule (line : string) (m : re_match) :
  search (strip line) = Some m →
  truthy (preceding_of line m) = true →
  (startswith "//" (strip line) = true →
     examine_line line = Ok Continue
     ∧ ∀ path rest,
         _get_file_map_entry path (line :: rest) = _get_file_map_entry path rest)
  ∧ (startswith "//" (strip line) = false →
     (examine_line line = Ok (Return (group2 m)) ↔
        (∃ c, last_char (preceding_of line m) = Some c ∧ isspace c = true)
        ∨ endswith ";" (preceding_of line m) = true
        ∨ endswith "*/" (preceding_of line m) = true)
     ∧ (examine_line line ≠ Ok (Return (group2 m)) → examine_line line = Ok Continue))
  ∧ examine_line "// package com.example;" = Ok Continue
  ∧ examine_line "*/ package com.example;" = Ok (Return "com.example")
  ∧ ∀ path, ∃ entry,
      make_entry path "org.real" = Ok entry
      ∧ _get_file_map_entry path ["// package com.example;"; "package org.real;"]
        = Ok (Some entry, []).
Proof.
  intros Hm Hpre. pose proof (examine_line_matched _ _ Hm) as Hex.
  rewrite Hpre in Hex. apply truthy_true in Hpre.
  rewrite (startswith_comment_line _ _ Hm Hpre).
  split; [|split; [|split; [|split]]]; try reflexivity.
  - intros Hc. rewrite Hc in Hex. split; [done|].
    intros path rest. cbn [_get_file_map_entry]. by rewrite Hex.
  - intros Hc. rewrite Hc in Hex. rewrite <-ends_at_boundary_iff, Hex.
    destruct (ends_at_boundary (preceding_of line m)); split; done.
  - intros path. destruct (make_entry_total path "org.real") as [entry He].
    exists entry. split; [done|].
    change ["// package com.example;"; "package org.real;"]
      with (["// package com.example;"] ++ "package org.real;" :: []).
    rewrite scan_skips by (forall_each ltac:(reflexivity)).
    by apply (scan_accepts _ _ "org.real").
Qed.

Lemma preceding_characters_rule_witness :
  examine_line "int x; package a.b;" = Ok (Return "a.b")
  ∧ examine_line "// int x; package a.b;" = Ok Continue.
Proof.
  split.
  - apply (proj1 (proj2 (preceding_characters_rule "int x; package a.b;"
                           (ReMatch 7 "a.b") eq_refl eq_refl)) eq_refl).
    left. exists " "%char. split; reflexivity.
  - apply (proj1 (preceding_characters_rule "// int x; package a.b;"
                    (ReMatch 10 "a.b") eq_refl eq_refl) eq_refl).
Defined.

End acceptance.

(** ** What the extractor returns *)

(** C3.  For a source identifier made of a directory, a file name stem
    and an extension, and a unit whose first accepted line declares the
    dotted name [name] (the one between the keyword and the semicolon),
    the extractor returns the stem qualified by [name], and the
    identifier with [.h] in place of its extension: [com.example.foo.Bar]
    and [src/Bar.h] for [src/Bar.java]. *)
Theorem entry_of_first_accepted_line
    (dir stem ext : string) (skipped : list string) (line name : string)
    (rest : list string) :
  is_dir_prefix dir = true → is_stem stem = true → is_ext ext = true →
  Forall (λ l, examine_line l = Ok Continue) skipped →
  examine_line line = Ok (Return name) →
  _get_file_map_entry (dir +:+ stem +:+ "." +:+ ext) (skipped ++ line :: rest)
    = Ok (Some (name +:+ "." +:+ stem, dir +:+ stem +:+ ".h"), rest)
  ∧ ∃ pre after, declares (strip line) pre name after.
Proof.
  intros Hdir Hstem Hext Hskip Hline. split.
  - rewrite scan_skips by done.
    eapply scan_accepts; [done|]. by apply make_entry_app.
  - by apply accepted_declares.
Qed.

Lemma entry_of_first_accepted_line_witness :
  _get_file_map_entry "src/Bar.java"
    ["// Copyright"; ""; "package com.example.foo;"; "class Bar {}"]
    = Ok (Some ("com.example.foo.Bar", "src/Bar.h"), ["class Bar {}"])
  ∧ ∃ pre after, declares (strip "package com.example.foo;") pre "com.example.foo" after.
Proof.
  apply (entry_of_first_accepted_line "src/" "Bar" "java"
           ["// Copyright"; ""] "package com.example.foo;" "com.example.foo"
           ["class Bar {}"]); try reflexivity.
  forall_each ltac:(reflexivity).
Defined.

(** C4.  The extractor answers one entry at most, the one of the first
    line that is accepted: the lines after it are left unread on the
    stream and have no part in the answer. *)
Theorem first_accepted_line_wins
    (path : string) (skipped : list string) (line name : string) :
  Forall (λ l, examine_line l = Ok Continue) skipped →
  examine_line line = Ok (Return name) →
  ∃ entry, make_entry path name = Ok entry
    ∧ ∀ rest, _get_file_map_entry path (skipped ++ line :: rest)
              = Ok (Some entry, rest).
Proof.
  intros Hskip Hline. destruct (make_entry_total path name) as [entry He].
  exists entry. split; [done|]. intros rest.
  rewrite scan_skips by done. by apply (scan_accepts _ _ name).
Qed.

Lemma first_accepted_line_wins_witness :
  ∃ entry, make_entry "A.java" "p1" = Ok entry
    ∧ ∀ rest, _get_file_map_entry "A.java" (["// package p0;"] ++ "package p1;" :: rest)
              = Ok (Some entry, rest).
Proof.
  apply (first_accepted_line_wins "A.java" ["// package p0;"] "package p1;" "p1");
    [forall_each ltac:(reflexivity) | reflexivity].
Defined.

(** C10.  In every match the semicolon comes right after the dotted
    name.  A unit in which every keyword is followed by white space, a
    name and white space before the semicolon has no entry; such is a
    file that holds only [package com.example ;]. *)
Theorem semicolon_follows_name (path : string) (lines : list string) :
  Forall (λ l, spaced_before_semicolon (strip l)) lines →
  _get_file_map_entry path lines = Ok (None, [])
  ∧ (∀ s m, PackageRe.search s = Some m →
       ∃ pre rest, declares s pre (PackageRe.group2 m) rest)
  ∧ PackageRe.search "package com.example ;" = None
  ∧ _get_file_map_entry path (readlines "package com.example ;") = Ok (None, []).
Proof.
  intros Hlines. split; [|split; [|split]]; try reflexivity.
  - apply scan_rejects. eapply Forall_impl; [done|]. simpl.
    intros l Hl. apply examine_line_unmatched. by apply spaced_no_match.
  - intros s m Hm. destruct (search_declares _ _ Hm) as (pre & rest & Hd & _).
    eauto.
Qed.

Section spaced.
Import PackageRe.

Lemma every_keyword_spec check s :
  every_keyword check s = true →
  ∀ pre suf, s = pre +:+ "package" +:+ suf → check suf = true.
Proof.
  intros H pre. revert s H.
  induction pre as [|c pre IH]; intros s H suf ->.
  - simpl in H. by apply andb_true_iff in H as [H _].
  - rewrite app_cons in H. cbn [every_keyword] in H.
    apply andb_true_iff in H as [_ H]. by eapply IH.
Qed.

Lemma headed_semicolon s :
  headed (Ascii.eqb ";") s = true → ∃ rest, s = ";" +:+ rest.
Proof.
  destruct s as [|c s]; [done|]. cbn [headed].
  intros ->%Ascii.eqb_eq. by exists s.
Qed.

Lemma spaced_here_spec suf :
  spaced_here suf = true →
  ∃ ws name ws' rest, suf = ws +:+ name +:+ ws' +:+ ";" +:+ rest
    ∧ ws ≠ "" ∧ all_chars isspace ws = true
    ∧ name ≠ "" ∧ all_chars is_name_char name = true
    ∧ ws' ≠ "" ∧ all_chars isspace ws' = true.
Proof.
  unfold spaced_here.
  pose proof (span_app isspace suf) as Happ1.
  pose proof (span_all isspace suf) as Hall1.
  destruct (span isspace suf) as [ws s2]. simpl in Happ1, Hall1.
  pose proof (span_app is_name_char s2) as Happ2.
  pose proof (span_all is_name_char s2) as Hall2.
  destruct (span is_name_char s2) as [name s3]. simpl in Happ2, Hall2.
  pose proof (span_app isspace s3) as Happ3.
  pose proof (span_all isspace s3) as Hall3.
  destruct (span isspace s3) as [ws' s4]. simpl in Happ3, Hall3.
  intros [[[Hws%truthy_true Hname%truthy_true]%andb_true_iff
             Hws'%truthy_true]%andb_true_iff
            [rest ->]%headed_semicolon]%andb_true_iff.
  exists ws, name, ws', rest. by subst.
Qed.

(** The decision procedure is sound. *)
Lemma spaced_before_semicolon_decide s :
  every_keyword spaced_here s = true → spaced_before_semicolon s.
Proof.
  intros H pre suf Hs. apply spaced_here_spec.
  by apply (every_keyword_spec _ _ H pre).
Qed.

End spaced.

Lemma semicolon_follows_name_witness :
  _get_file_map_entry "Foo.java"
    ["package com.example ;"; "class Foo {}"; "  package  a.b.c   ; // none"]
  = Ok (None, []).
Proof.
  apply (semicolon_follows_name "Foo.java"
           ["package com.example ;"; "class Foo {}";
            "  package  a.b.c   ; // none"]).
  forall_each ltac:(apply spaced_before_semicolon_decide; reflexivity).
Defined.

(** C5.  A unit none of whose lines is accepted has no entry: the
    extractor reads the stream to its end and answers [None], raising
    nothing, and the mapping is as it was, for a loose file and for a
    member of an archive alike.  Whatever the identifier and the lines,
    the extractor does not raise. *)
Theorem no_accepted_line_no_entry
    (path : string) (lines : list string) (class_to_header_map : gmap string string) :
  Forall (λ l, ∀ name, examine_line l ≠ Ok (Return name)) lines →
  _get_file_map_entry path lines = Ok (None, [])
  ∧ (∀ content w,
       files w !! path = Some content → readlines content = lines →
       scan_source_file path class_to_header_map w
       = (Ok class_to_header_map, logged (OpenedSource path) w))
  ∧ (∀ source_jar jar content w,
       endswith ".java" path = true →
       getinfo jar path = Some content → readlines content = lines →
       scan_jar_entry source_jar jar path class_to_header_map w
       = (Ok class_to_header_map, logged (OpenedJarEntry source_jar path) w))
  ∧ ∀ p ls, ∃ r, _get_file_map_entry p ls = Ok r.
Proof.
  intros Hno.
  assert (_get_file_map_entry path lines = Ok (None, [])) as Hscan.
  { apply scan_rejects. eapply Forall_impl; [done|]. simpl.
    intros l Hl. by apply not_accepted_continue. }
  split; [done|]. split; [|split].
  - intros content w Hfile Hlines. unfold scan_source_file, open_read.
    unfold mbind, io_bind. rewrite Hfile. unfold lift. by rewrite Hlines, Hscan.
  - intros source_jar jar content w Hjava Hinfo Hlines.
    unfold scan_jar_entry, jar_open. rewrite Hjava.
    unfold mbind, io_bind. rewrite Hinfo. unfold lift. by rewrite Hlines, Hscan.
  - apply _get_file_map_entry_total.
Qed.

Lemma no_accepted_line_no_entry_witness :
  _get_file_map_entry "B.java" ["class B {}"; "// package b;"; "xpackage b;"]
  = Ok (None, []).
Proof.
  apply (no_accepted_line_no_entry "B.java"
           ["class B {}"; "// package b;"; "xpackage b;"] ∅).
  forall_each ltac:(intros name; vm_compute; discriminate).
Defined.

(** ** The run *)

Section run.
Implicit Types (m : gmap string string) (w : world) (path : string).

Lemma bind_ok {A B} (c : io A) (k : A → io B) w a w1 :
  c w = (Ok a, w1) → (c ≫= k) w = k a w1.
Proof. intros H. unfold mbind, io_bind. by rewrite H. Qed.

Lemma bind_raise {A B} (c : io A) (k : A → io B) w e w1 :
  c w = (Raise e, w1) → (c ≫= k) w = (Raise e, w1).
Proof. intros H. unfold mbind, io_bind. by rewrite H. Qed.

Lemma world_eta w : World (files w) (archives w) (trace w) = w.
Proof. by destruct w. Qed.

Lemma unit_entry_run path lines :
  ∃ rest, _get_file_map_entry path lines = Ok (unit_entry (path, lines), rest).
Proof.
  unfold unit_entry. simpl.
  destruct (_get_file_map_entry_total path lines) as [[entry rest] ->]. eauto.
Qed.

Lemma table_of_app us1 us2 m :
  table_of (us1 ++ us2) m = table_of us2 (table_of us1 m).
Proof. apply foldl_app. Qed.

Lemma scan_source_file_present path content m w :
  files w !! path = Some content →
  scan_source_file path m w
  = (Ok (record_entry (unit_entry (path, readlines content)) m),
     logged (OpenedSource path) w).
Proof.
  intros Hfile. unfold scan_source_file.
  erewrite bind_ok; [|unfold open_read; by rewrite Hfile].
  destruct (unit_entry_run path (readlines content)) as [rest Hrun].
  erewrite bind_ok; [|unfold lift; by rewrite Hrun]. done.
Qed.

Lemma scan_source_file_missing path m w :
  files w !! path = None → scan_source_file path m w = (Raise (IOError path), w).
Proof.
  intros Hfile. unfold scan_source_file.
  apply bind_raise. unfold open_read. by rewrite Hfile.
Qed.

(** The loop over the loose files, when it ends normally. *)
Lemma for_each_source_files paths : ∀ m w m' w',
  for_each scan_source_file paths m w = (Ok m', w') →
  m' = table_of (loose_units (files w) paths) m
  ∧ w' = World (files w) (archives w) (trace w ++ (OpenedSource <$> paths)).
Proof.
  induction paths as [|path paths IH]; intros m w m' w' Hrun.
  - injection Hrun as <- <-. by rewrite app_nil_r, world_eta.
  - cbn [for_each] in Hrun. destruct (files w !! path) as [content|] eqn:Hfile.
    + erewrite bind_ok in Hrun by by apply scan_source_file_present.
      apply IH in Hrun as [-> ->]. unfold loose_units, source_unit.
      cbn [omap list_omap]. rewrite Hfile. simpl. split; [done|].
      by rewrite <-app_assoc.
    + erewrite bind_raise in Hrun by by apply scan_source_file_missing.
      done.
Qed.

Lemma getinfo_namelist jar name :
  name ∈ namelist jar → is_Some (getinfo jar name).
Proof.
  unfold namelist. induction jar as [|[n content] jar IH]; simpl.
  - by intros ?%elem_of_nil.
  - intros [->|Hin]%elem_of_cons.
    + destruct (getinfo jar n); [by eauto|]. rewrite String.eqb_refl. eauto.
    + destruct (IH Hin) as [c ->]. eauto.
Qed.

Lemma java_names_cons name names :
  java_names (name :: names)
  = if endswith ".java" name then name :: java_names names else java_names names.
Proof.
  unfold java_names. rewrite filter_cons.
  destruct (endswith ".java" name); by case_decide.
Qed.

Lemma scan_jar_entry_run source_jar jar name content m w :
  getinfo jar name = Some content →
  scan_jar_entry source_jar jar name m w
  = if endswith ".java" name
    then (Ok (record_entry (unit_entry (name, readlines content)) m),
          logged (OpenedJarEntry source_jar name) w)
    else (Ok m, w).
Proof.
  intros Hinfo. unfold scan_jar_entry.
  destruct (endswith ".java" name); [|done].
  erewrite bind_ok; [|unfold jar_open; by rewrite Hinfo].
  destruct (unit_entry_run name (readlines content)) as [rest Hrun].
  erewrite bind_ok; [|unfold lift; by rewrite Hrun]. done.
Qed.

(** The loop over the names of an archive: it cannot raise. *)
Lemma for_each_jar_entries source_jar jar names : ∀ m w,
  Forall (λ n, is_Some (getinfo jar n)) names →
  for_each (scan_jar_entry source_jar jar) names m w
  = (Ok (table_of (jar_units jar names) m),
     World (files w) (archives w)
           (trace w ++ (OpenedJarEntry source_jar <$> java_names names))).
Proof.
  induction names as [|name names IH]; intros m w Hnames.
  - simpl. by rewrite app_nil_r, world_eta.
  - apply Forall_cons in Hnames as [[content Hinfo] Hnames].
    cbn [for_each]. rewrite java_names_cons.
    unfold jar_units, jar_unit. cbn [omap list_omap].
    pose proof (scan_jar_entry_run source_jar jar name content m w Hinfo) as Hrun.
    destruct (endswith ".java" name) eqn:Hjava.
    + erewrite bind_ok by done.
      rewrite IH by done. rewrite Hinfo. simpl. by rewrite <-app_assoc.
    + erewrite bind_ok by done. rewrite IH by done. done.
Qed.

(** One archive, when it could be opened. *)
Lemma scan_source_jar_ok source_jar m w m' w' :
  scan_source_jar source_jar m w = (Ok m', w') →
  ∃ jar, archives w !! source_jar = Some jar
    ∧ m' = table_of (jar_units jar (namelist jar)) m
    ∧ w' = World (files w) (archives w)
             (trace w ++ OpenedJar source_jar
                :: (OpenedJarEntry source_jar <$> java_names (namelist jar))).
Proof.
  unfold scan_source_jar. intros Hrun.
  destruct (archives w !! source_jar) as [jar|] eqn:Hjar.
  - erewrite bind_ok in Hrun by (unfold open_jar; by rewrite Hjar).
    rewrite for_each_jar_entries in Hrun
      by (apply Forall_forall; intros n Hn; by apply getinfo_namelist).
    injection Hrun as <- <-. exists jar. simpl. by rewrite <-app_assoc.
  - erewrite bind_raise in Hrun by (unfold open_jar; by rewrite Hjar). done.
Qed.

Lemma reads_only_refl w : reads_only w w.
Proof. repeat split. exists []. by rewrite app_nil_r. Qed.

Lemma reads_only_trans w1 w2 w3 :
  reads_only w1 w2 → reads_only w2 w3 → reads_only w1 w3.
Proof.
  intros (Hf1 & Ha1 & evs1 & Ht1 & He1) (Hf2 & Ha2 & evs2 & Ht2 & He2).
  repeat split; [congruence..|]. exists (evs1 ++ evs2).
  split; [by rewrite Ht2, Ht1, app_assoc | by apply Forall_app].
Qed.

Lemma reads_only_events w evs :
  Forall (λ e, is_input_event e = true) evs →
  reads_only w (World (files w) (archives w) (trace w ++ evs)).
Proof. intros H. repeat split. by exists evs. Qed.

Lemma reads_only_bind {A B} (c : io A) (k : A → io B) :
  (∀ w, reads_only w (c w).2) → (∀ a w, reads_only w (k a w).2) →
  ∀ w, reads_only w ((c ≫= k) w).2.
Proof.
  intros Hc Hk w. unfold mbind, io_bind. specialize (Hc w).
  destruct (c w) as [[a|e] w1]; simpl in *; [|done].
  eapply reads_only_trans; [done | apply Hk].
Qed.

Lemma reads_only_for_each {A S} (body : A → S → io S) l :
  (∀ x s w, reads_only w (body x s w).2) →
  ∀ s w, reads_only w (for_each body l s w).2.
Proof.
  intros Hbody. induction l as [|x l IH]; intros s w; simpl.
  - apply reads_only_refl.
  - by apply reads_only_bind.
Qed.

Lemma scan_source_file_reads path m w :
  reads_only w (scan_source_file path m w).2.
Proof.
  destruct (files w !! path) as [content|] eqn:Hfile.
  - rewrite (scan_source_file_present _ _ _ _ Hfile).
    apply (reads_only_events w [OpenedSource path]). by forall_each ltac:(done).
  - rewrite (scan_source_file_missing _ _ _ Hfile). apply reads_only_refl.
Qed.

Lemma scan_source_jar_reads source_jar m w :
  reads_only w (scan_source_jar source_jar m w).2.
Proof.
  destruct (scan_source_jar source_jar m w) as [[m'|e] w'] eqn:Hrun.
  - apply scan_source_jar_ok in Hrun as (jar & _ & _ & ->).
    apply reads_only_events. apply Forall_cons. split; [done|].
    by apply Forall_fmap, Forall_true.
  - unfold scan_source_jar in Hrun.
    destruct (archives w !! source_jar) as [jar|] eqn:Hjar.
    + erewrite bind_ok in Hrun by (unfold open_jar; by rewrite Hjar).
      rewrite for_each_jar_entries in Hrun
        by (apply Forall_forall; intros n Hn; by apply getinfo_namelist).
      done.
    + erewrite bind_raise in Hrun by (unfold open_jar; by rewrite Hjar).
      injection Hrun as _ <-. apply reads_only_refl.
Qed.

(** Reading the inputs writes no file, whether it ends normally or not. *)
Lemma collect_reads_only args w : reads_only w (collect args w).2.
Proof.
  unfold collect. apply reads_only_bind.
  - intros w1. destruct (given (source_files args)).
    + apply reads_only_for_each. intros. apply scan_source_file_reads.
    + apply reads_only_refl.
  - intros m w1. destruct (given (source_jars args)).
    + apply reads_only_for_each. intros. apply scan_source_jar_reads.
    + apply reads_only_refl.
Qed.

(** The loop over the archives, when it ends normally. *)
Lemma for_each_source_jars paths : ∀ m w m' w',
  for_each scan_source_jar paths m w = (Ok m', w') →
  m' = table_of (archive_units (archives w) paths) m.
Proof.
  induction paths as [|path paths IH]; intros m w m' w' Hrun.
  - by injection Hrun as <- <-.
  - cbn [for_each] in Hrun.
    destruct (scan_source_jar path m w) as [[m1|e] w1] eqn:Hjar.
    + erewrite bind_ok in Hrun by done.
      apply scan_source_jar_ok in Hjar as (jar & Hjar & -> & ->).
      apply IH in Hrun as ->. cbn [archive_units archives].
      by rewrite Hjar, table_of_app.
    + by erewrite bind_raise in Hrun by done.
Qed.

(** The mapping of a run that read all its inputs. *)
Lemma collect_ok args w m w' :
  collect args w = (Ok m, w') → m = table_of (input_units args w) ∅.
Proof.
  unfold collect, input_units. intros Hrun. rewrite table_of_app.
  destruct (given (source_files args)) as [paths|].
  - destruct (for_each scan_source_file (split_comma paths) ∅ w)
      as [[m1|e] w1] eqn:Hloose.
    + erewrite bind_ok in Hrun by done.
      apply for_each_source_files in Hloose as [-> ->].
      destruct (given (source_jars args)) as [jars|].
      * by apply for_each_source_jars in Hrun as ->.
      * by injection Hrun as <- _.
    + by erewrite bind_raise in Hrun by done.
  - erewrite bind_ok in Hrun by done.
    destruct (given (source_jars args)) as [jars|].
    + by apply for_each_source_jars in Hrun as ->.
    + by injection Hrun as <- _.
Qed.

End run.

(** ** The mapping *)

Section mapping.
Implicit Types (m : gmap string string) (w : world) (q h : string).

Lemma table_of_cons u us m :
  table_of (u :: us) m = table_of us (record_entry (unit_entry u) m).
Proof. reflexivity. Qed.

Lemma table_of_skip after m q :
  none_for q after → table_of after m !! q = m !! q.
Proof.
  intros Hnone. revert m. induction Hnone as [|u after Hu _ IH]; intros m; [done|].
  rewrite table_of_cons, IH.
  destruct (unit_entry u) as [[q' h']|]; [|done]. simpl in *.
  apply lookup_insert_ne. congruence.
Qed.

(** Of the units with an entry for one qualified name the last wins. *)
Lemma table_of_last units u after m q h :
  unit_entry u = Some (q, h) → none_for q after →
  table_of (units ++ u :: after) m !! q = Some h.
Proof.
  intros Hu Hnone. rewrite table_of_app, table_of_cons.
  rewrite table_of_skip by done.
  rewrite Hu. simpl. apply lookup_insert_eq.
Qed.

Lemma sorted_elem m k : k ∈ sorted m ↔ is_Some (m !! k).
Proof.
  unfold sorted. rewrite merge_sort_Permutation, list_elem_of_fmap. split.
  - intros [[k' v] [-> H%elem_of_map_to_list]]. eauto.
  - intros [v H]. exists (k, v). split; [done|]. by apply elem_of_map_to_list.
Qed.

Lemma sorted_NoDup m : NoDup (sorted m).
Proof. unfold sorted. rewrite merge_sort_Permutation. apply NoDup_fst_map_to_list. Qed.

Lemma le_ne_lt (a b : string) : String.le a b → a ≠ b → PyStr.lt a b.
Proof.
  unfold String.le, PyStr.lt, String.leb, String.ltb. intros Hle Hne.
  destruct (String.compare a b) eqn:Hc; [|done|done].
  by apply String.compare_eq_iff in Hc.
Qed.

Lemma strictly_sorted (l : list string) :
  StronglySorted String.le l → NoDup l → StronglySorted PyStr.lt l.
Proof.
  induction 1 as [|x l Hl IH Hx]; [constructor|].
  intros [Hnotin Hnd]%NoDup_cons; constructor.
  - by apply IH.
  - apply Forall_forall. intros y Hy. apply le_ne_lt.
    + by eapply Forall_forall in Hx.
    + by intros ->.
Qed.

(** [sorted] answers the keys in strictly ascending order. *)
Lemma sorted_lt m : StronglySorted PyStr.lt (sorted m).
Proof.
  apply strictly_sorted; [|apply sorted_NoDup].
  unfold sorted. apply (StronglySorted_merge_sort String.le).
Qed.

Lemma for_each_write_lines out m keys : ∀ w text,
  Forall (λ k, is_Some (m !! k)) keys → files w !! out = Some text →
  for_each (write_line out m) keys () w
  = (Ok (),
     World (<[out := text +:+ join ((λ k, mapping_line (k, default "" (m !! k))) <$> keys)]>
              (files w))
           (archives w) (trace w)).
Proof.
  induction keys as [|k keys IH]; intros w text Hkeys Hout.
  - simpl. rewrite app_empty_r, insert_id by done. by rewrite world_eta.
  - apply Forall_cons in Hkeys as [[v Hv] Hkeys]. cbn [for_each].
    erewrite bind_ok; cycle 1.
    { unfold write_line. erewrite bind_ok; [|unfold lift, dict_get; by rewrite Hv].
      unfold write. by rewrite Hout. }
    erewrite IH; [|done|apply lookup_insert_eq]. simpl.
    rewrite insert_insert_eq, Hv. unfold mapping_line at 2. simpl.
    by rewrite !app_assoc'.
Qed.

(** What is written when an output path is given. *)
Lemma write_mapping_given args out m w :
  given (output_mapping_file args) = Some out →
  write_mapping args m w
  = (Ok (),
     World (<[out := join ((λ k, mapping_line (k, default "" (m !! k))) <$> sorted m)]>
              (files w))
           (archives w) (trace w ++ [OpenedOutput out])).
Proof.
  intros Hout. unfold write_mapping. rewrite Hout.
  erewrite bind_ok by done.
  erewrite for_each_write_lines;
    [|apply Forall_forall; intros k; apply sorted_elem|apply lookup_insert_eq].
  simpl. by rewrite insert_insert_eq.
Qed.

End mapping.

(** C6.  When two units of a run have an entry for one qualified name,
    and no unit processed after the second has, the mapping holds for
    that name the header path of the second, and the name is written
    once.  The units are processed in the order of [input_units]: the
    loose files as listed, then the members of the archives, archive
    after archive as listed, each in the order of its directory. *)
Theorem last_unit_wins
    (args : Args) (w w' : world) (m : gmap string string)
    (before mid after : list (string * list string))
    (u1 u2 : string * list string) (q h1 h2 : string) :
  collect args w = (Ok m, w') →
  input_units args w = before ++ u1 :: mid ++ u2 :: after →
  unit_entry u1 = Some (q, h1) →
  unit_entry u2 = Some (q, h2) →
  none_for q after →
  m = table_of (input_units args w) ∅
  ∧ m !! q = Some h2
  ∧ q ∈ sorted m ∧ NoDup (sorted m).
Proof.
  intros Hrun Hunits Hu1 Hu2 Hafter.
  apply collect_ok in Hrun as ->.
  assert (table_of (input_units args w) ∅ !! q = Some h2) as Hq.
  { rewrite Hunits.
    replace (before ++ u1 :: mid ++ u2 :: after)
      with ((before ++ u1 :: mid) ++ u2 :: after) by by rewrite <-app_assoc.
    by apply table_of_last. }
  repeat split; [done| |apply sorted_NoDup].
  apply sorted_elem. by rewrite Hq.
Qed.

Lemma last_unit_wins_witness :
  ∃ m, (collect sample_args sample_world).1 = Ok m
    ∧ m !! "p.Foo" = Some "b/Foo.h".
Proof.
  eexists. split; [reflexivity|].
  eapply (last_unit_wins sample_args sample_world _ _
            [("A.java", _); ("B.java", _)]
            [("pkg/Entry.java", _)] [("c/Last.java", _)]
            ("a/Foo.java", _) ("b/Foo.java", _) "p.Foo" "a/Foo.h" "b/Foo.h");
    [reflexivity | reflexivity | reflexivity | reflexivity |].
  forall_each ltac:(vm_compute; discriminate).
Defined.

(** C7.  With an output path, a run that read all its inputs writes to
    that path the lines [qualifiedName=headerPath], each ended by one
    newline, of the entries of the mapping and nothing else: one line for
    each entry, in strictly ascending order of the qualified names,
    whatever the order in which the mapping was filled. *)
Theorem mapping_file_format
    (args : Args) (out : string) (m : gmap string string) (w w1 : world) :
  given (output_mapping_file args) = Some out →
  collect args w = (Ok m, w1) →
  ∃ (entries : list (string * string)) (w' : world),
    main args w = (Ok (), w')
    ∧ files w' !! out = Some (join (mapping_line <$> entries))
    ∧ StronglySorted PyStr.lt entries.*1
    ∧ (∀ k v, (k, v) ∈ entries ↔ m !! k = Some v)
    ∧ length entries = size m
    ∧ (∀ p, p ≠ out → files w' !! p = files w !! p).
Proof.
  intros Hout Hrun.
  exists ((λ k, (k, default "" (m !! k))) <$> sorted m). eexists.
  split; [|split; [|split; [|split; [|split]]]].
  - unfold main. erewrite bind_ok by done. by apply write_mapping_given.
  - simpl. rewrite lookup_insert_eq. by rewrite <-list_fmap_compose.
  - rewrite <-list_fmap_compose.
    replace (fst ∘ (λ k, (k, default "" (m !! k)))) with (@id string) by done.
    rewrite list_fmap_id. apply sorted_lt.
  - intros k v. rewrite list_elem_of_fmap. split.
    + intros (k' & [= -> ->] & [v' Hv]%sorted_elem). by rewrite Hv.
    + intros Hv. exists k. rewrite Hv. split; [done|]. apply sorted_elem. eauto.
  - rewrite length_fmap. unfold sorted.
    rewrite (Permutation_length (merge_sort_Permutation _ _)), length_fmap.
    apply length_map_to_list.
  - intros p Hp. simpl. rewrite lookup_insert_ne by done.
    pose proof (collect_reads_only args w) as (Hfiles & _).
    rewrite Hrun in Hfiles. simpl in Hfiles. by rewrite Hfiles.
Qed.

Lemma mapping_file_format_witness :
  ∃ (entries : list (string * string)) (w' : world),
    main sample_args sample_world = (Ok (), w')
    ∧ files w' !! "out" = Some (join (mapping_line <$> entries))
    ∧ StronglySorted PyStr.lt entries.*1
    ∧ (∀ k v, (k, v) ∈ entries ↔ sample_mapping !! k = Some v)
    ∧ length entries = size sample_mapping
    ∧ (∀ p, p ≠ "out" → files w' !! p = files sample_world !! p).
Proof.
  eapply (mapping_file_format sample_args "out" sample_mapping sample_world _ eq_refl).
  vm_compute. reflexivity.
Defined.

(** C8.  Of an archive given in [--source_jars] the members that are
    opened are those whose name ends in [.java], in that case exactly;
    the unit of such a member has the name of the member for identifier,
    so that a member [pkg/Entry.java] that declares [package pkg;] gives
    the entry [pkg.Entry] with header [pkg/Entry.h] and the line
    [pkg.Entry=pkg/Entry.h]. *)
Theorem jar_members_scanned
    (source_jar : string) (m m' : gmap string string) (w w' : world) :
  scan_source_jar source_jar m w = (Ok m', w') →
  (∃ jar, archives w !! source_jar = Some jar
     ∧ m' = table_of (jar_units jar (namelist jar)) m
     ∧ trace w' = trace w ++ OpenedJar source_jar
         :: (OpenedJarEntry source_jar <$> java_names (namelist jar))
     ∧ (∀ name, name ∈ java_names (namelist jar) ↔
          name ∈ namelist jar ∧ endswith ".java" name = true)
     ∧ (∀ u, u ∈ jar_units jar (namelist jar) →
          u.1 ∈ java_names (namelist jar)
          ∧ ∃ content, getinfo jar u.1 = Some content ∧ u.2 = readlines content))
  ∧ (∀ rest, unit_entry ("pkg/Entry.java", ("package pkg;" +:+ newline) :: rest)
             = Some ("pkg.Entry", "pkg/Entry.h"))
  ∧ mapping_line ("pkg.Entry", "pkg/Entry.h") = "pkg.Entry=pkg/Entry.h" +:+ newline
  ∧ endswith ".java" "pkg/Other.JAVA" = false.
Proof.
  intros Hrun. split; [|by repeat split].
  apply scan_source_jar_ok in Hrun as (jar & Hjar & -> & ->).
  exists jar. split; [done|]. split; [done|]. split; [done|]. split.
  - intros name. unfold java_names. rewrite list_elem_of_filter. tauto.
  - intros [name lines]. unfold jar_units. rewrite list_elem_of_omap.
    intros (n & Hn & Hu). unfold jar_unit in Hu.
    destruct (endswith ".java" n) eqn:Hjava; [|done].
    destruct (getinfo jar n) as [content|] eqn:Hinfo; [|done].
    injection Hu as <- <-. simpl. split; [|by eauto].
    unfold java_names. by apply list_elem_of_filter.
Qed.

Lemma jar_members_scanned_witness :
  ∃ m' w', scan_source_jar "lib.srcjar" ∅ sample_world = (Ok m', w')
    ∧ trace w' = [OpenedJar "lib.srcjar";
                  OpenedJarEntry "lib.srcjar" "pkg/Entry.java";
                  OpenedJarEntry "lib.srcjar" "b/Foo.java";
                  OpenedJarEntry "lib.srcjar" "c/Last.java"]
    ∧ m' !! "pkg.Entry" = Some "pkg/Entry.h".
Proof.
  eexists _, _. split; [reflexivity|].
  destruct (jar_members_scanned "lib.srcjar" ∅ _ sample_world _ eq_refl)
    as [(jar & Hjar & _ & Htrace & _) _].
  injection Hjar as <-. split; [exact Htrace | reflexivity].
Defined.

(** C9.  Without an output path the step that writes the mapping does
    nothing and ends normally, whatever the mapping holds: the run leaves
    every file as it was and opens none for writing, and it ends normally
    when reading the inputs did. *)
Theorem no_output_without_path (args : Args) (w : world) :
  given (output_mapping_file args) = None →
  (∀ m w1, write_mapping args m w1 = (Ok (), w1))
  ∧ files (main args w).2 = files w
  ∧ (∃ evs, trace (main args w).2 = trace w ++ evs
       ∧ Forall (λ e, is_input_event e = true) evs)
  ∧ (∀ m w1, collect args w = (Ok m, w1) → main args w = (Ok (), w1)).
Proof.
  intros Hout.
  assert (∀ m w1, write_mapping args m w1 = (Ok (), w1)) as Hwrite.
  { intros m w1. unfold write_mapping. by rewrite Hout. }
  assert (reads_only w (main args w).2) as (Hfiles & _ & Htrace).
  { unfold main. apply reads_only_bind; [apply collect_reads_only|].
    intros m w1. rewrite Hwrite. apply reads_only_refl. }
  repeat split; [done..|].
  intros m w1 Hrun. unfold main. erewrite bind_ok by done. apply Hwrite.
Qed.

Lemma no_output_without_path_witness :
  files (main (MkArgs (Some "A.java,B.java") (Some "lib.srcjar") None) sample_world).2
  = files sample_world
  ∧ (main (MkArgs (Some "A.java,B.java") (Some "lib.srcjar") None) sample_world).1
    = Ok ().
Proof.
  destruct (no_output_without_path
              (MkArgs (Some "A.java,B.java") (Some "lib.srcjar") None)
              sample_world eq_refl) as (_ & Hfiles & _ & Hmain).
  split; [exact Hfiles|]. by erewrite Hmain by reflexivity.
Defined.

(** * Further properties *)

(** ** Margins and candidates of a line *)

Section margins.
Import PackageRe.
Implicit Types (s t lead trail line pre ws name rest : string) (c : ascii).

Lemma lstrip_blank lead s : blank lead = true → lstrip (lead +:+ s) = lstrip s.
Proof.
  unfold blank. induction lead as [|c lead IH]; simpl; [done|].
  intros [-> H]%andb_true_iff. by apply IH.
Qed.

Lemma rstrip_blank trail : blank trail = true → rstrip trail = "".
Proof.
  unfold blank. induction trail as [|c trail IH]; simpl; [done|].
  intros [-> H]%andb_true_iff. by rewrite IH.
Qed.

Lemma rstrip_app_blank s trail :
  blank trail = true → rstrip (s +:+ trail) = rstrip s.
Proof.
  intros H. induction s as [|c s IH]; simpl; [by apply rstrip_blank|].
  by rewrite IH.
Qed.

Lemma strip_margins lead s trail :
  blank lead = true → blank trail = true →
  strip (lead +:+ s +:+ trail) = strip s.
Proof.
  intros Hlead Htrail. unfold strip. rewrite lstrip_blank by done.
  induction s as [|c s IH]; simpl.
  - rewrite (rstrip_blank (lstrip trail)); [done|].
    clear -Htrail. unfold blank in *.
    induction trail as [|c trail IH]; simpl in *; [done|].
    apply andb_true_iff in Htrail as [-> H]. by apply IH.
  - destruct (isspace c); [done|].
    by rewrite <-app_cons, rstrip_app_blank.
Qed.

Lemma rstrip_cons_nonspace c s :
  isspace c = false → rstrip (String c s) = String c (rstrip s).
Proof. intros Hc. simpl. rewrite Hc. by destruct (rstrip s). Qed.

Lemma rstrip_app_kept s t : rstrip t ≠ "" → rstrip (s +:+ t) = s +:+ rstrip t.
Proof.
  intros Ht. induction s as [|c s IH]; simpl; [done|]. rewrite IH.
  destruct (s +:+ rstrip t) eqn:Hs; [|done].
  destruct s; simpl in Hs; [done | discriminate].
Qed.

Lemma lstrip_headed s : headed isspace s = false → lstrip s = s.
Proof. destruct s as [|c s]; simpl; [done|]. by intros ->. Qed.

(** Trimming a line that reads some text, the keyword, white space, a
    name and a semicolon only shortens what follows the semicolon. *)
Lemma strip_declaration pre ws name rest :
  headed isspace (pre +:+ "package") = false →
  strip (pre +:+ "package" +:+ ws +:+ name +:+ ";" +:+ rest)
  = pre +:+ "package" +:+ ws +:+ name +:+ ";" +:+ rstrip rest.
Proof.
  intros Hpre. unfold strip. rewrite lstrip_headed.
  - assert (rstrip (";" +:+ rest) = ";" +:+ rstrip rest) as Hsemi
      by by apply (rstrip_cons_nonspace ";").
    replace (pre +:+ "package" +:+ ws +:+ name +:+ ";" +:+ rest)
      with ((pre +:+ "package" +:+ ws +:+ name) +:+ ";" +:+ rest)
      by by rewrite !app_assoc'.
    rewrite (rstrip_app_kept _ (";" +:+ rest)) by by rewrite Hsemi.
    by rewrite Hsemi, !app_assoc'.
  - rewrite <-app_assoc'. destruct (pre +:+ "package") eqn:Hp.
    + destruct pre; discriminate.
    + done.
Qed.


Lemma search_at_zero ws name rest :
  truthy ws = true → blank ws = true →
  truthy name = true → all_chars is_name_char name = true →
  search ("package" +:+ ws +:+ name +:+ ";" +:+ rest) = Some (ReMatch 0 name).
Proof.
  intros Hws%truthy_true Hwsb Hname%truthy_true Hnameb.
  apply (search_from_complete 0 "" _ name rest).
  - apply match_here_spec. by exists ws.
  - intros p1 p2 Hp Hp2. by destruct p1, p2.
Qed.


Lemma slice_0_0 s : slice s 0 0 = "".
Proof. exact (slice_to_app "" s). Qed.

Lemma same_text_strip l l' : same_text l l' → strip l = strip l'.
Proof.
  intros (core & lead & trail & lead' & trail' & -> & -> & ? & ? & ? & ?).
  by rewrite !strip_margins.
Qed.

Lemma unit_entry_cons path l ls :
  unit_entry (path, l :: ls)
  = match examine_line l with
    | Ok Continue => unit_entry (path, ls)
    | Ok (Return name) =>
        match make_entry path name with
        | Ok entry => Some entry
        | Raise _ => None
        end
    | Raise _ => None
    end.
Proof.
  unfold unit_entry. cbn [fst snd _get_file_map_entry].
  destruct (examine_line l) as [[|name]|e]; simpl; [done| |done].
  by destruct (make_entry path name).
Qed.

End margins.

(** X1.  A line on which only white space precedes the keyword, and the
    keyword is followed by white space, a run of word characters and
    dots, and a semicolon, is accepted with that run for package name,
    whatever follows the semicolon. *)
Theorem leading_keyword_accepted (lead ws name rest : string) :
  blank lead = true →
  truthy ws = true → blank ws = true →
  truthy name = true → all_chars PackageRe.is_name_char name = true →
  examine_line (lead +:+ "package" +:+ ws +:+ name +:+ ";" +:+ rest)
  = Ok (Return name).
Proof.
  intros Hlead Hws Hwsb Hname Hnameb.
  pose proof (strip_margins lead ("package" +:+ ws +:+ name +:+ ";" +:+ rest) ""
                Hlead eq_refl) as Hstrip.
  rewrite app_empty_r in Hstrip.
  pose proof (strip_declaration "" ws name rest eq_refl) as Hdecl.
  change ("" +:+ ?x) with x in Hdecl.
  assert (PackageRe.search
            (strip (lead +:+ "package" +:+ ws +:+ name +:+ ";" +:+ rest))
          = Some (PackageRe.ReMatch 0 name)) as Hm.
  { rewrite Hstrip, Hdecl. by apply search_at_zero. }
  rewrite (examine_line_matched _ _ Hm). unfold preceding_of. simpl.
  by rewrite slice_0_0.
Qed.

Lemma leading_keyword_accepted_witness :
  examine_line ("  " +:+ tab +:+ "package" +:+ (" " +:+ tab) +:+ "..a_1.B"
                +:+ ";" +:+ " import x; }") = Ok (Return "..a_1.B").
Proof.
  apply (leading_keyword_accepted ("  " +:+ tab) (" " +:+ tab) "..a_1.B"
           " import x; }"); reflexivity.
Defined.

(** X2.  The entry of a unit does not depend on the margins of its
    lines: two sequences of lines that differ only in leading and
    trailing white space, line by line, have the same entry. *)
Theorem margins_ignored (path : string) (ls ls' : list string) :
  Forall2 same_text ls ls' →
  unit_entry (path, ls) = unit_entry (path, ls').
Proof.
  induction 1 as [|l l' ls ls' Hl _ IH]; [done|].
  rewrite !unit_entry_cons. unfold examine_line.
  rewrite (same_text_strip _ _ Hl). fold (examine_line l').
  destruct (examine_line l') as [[|name]|e]; done.
Qed.

Lemma margins_ignored_witness :
  unit_entry ("Foo.java", ["// header" +:+ newline; "package a.b;" +:+ newline])
  = unit_entry ("Foo.java", [tab +:+ "// header" +:+ cr +:+ newline;
                             "  package a.b;" +:+ cr +:+ newline]).
Proof.
  apply (margins_ignored "Foo.java").
  apply Forall2_cons_2; [|apply Forall2_cons_2; [|apply Forall2_nil_2]].
  - exists "// header", "", newline, tab, (cr +:+ newline). by repeat split.
  - exists "package a.b;", "", newline, "  ", (cr +:+ newline). by repeat split.
Defined.



(** ** The shape of an entry *)

Section entry_shape.
Import PosixPath.
Implicit Types (p s t a b root ext dir dots word : string) (c : ascii).

Lemma split_at s (n : nat) :
  (n ≤ String.length s)%nat → ∃ a b, s = a +:+ b ∧ String.length a = n.
Proof.
  revert s. induction n as [|n IH]; intros s Hn.
  - by exists "", s.
  - destruct s as [|c s]; simpl in Hn; [lia|].
    destruct (IH s) as (a & b & -> & Ha); [lia|].
    exists (String c a), b. simpl. by rewrite Ha.
Qed.

Lemma slice_split p d :
  0 ≤ d ≤ len p → ∃ a b, p = a +:+ b ∧ len a = d
                         ∧ slice_to p d = a ∧ slice_from p d = b.
Proof.
  intros Hd. destruct (split_at p (Z.to_nat d)) as (a & b & -> & Ha).
  { unfold len in Hd. lia. }
  assert (len a = d) as <- by (unfold len; lia).
  exists a, b. repeat split; [apply slice_to_app | apply slice_from_app].
Qed.

Lemma splitext_scan_some fuel p : ∀ i d r,
  splitext_scan fuel p i d = Ok (Some r) →
  r = (slice_to p d, slice_from p d).
Proof.
  induction fuel as [|fuel IH]; intros i d r; simpl; [done|].
  destruct (i <? d); [|done].
  destruct (getitem p i) as [c|e]; simpl; [|done].
  destruct (negb (Ascii.eqb c ".")); [congruence | apply IH].
Qed.

Lemma rfind_zero c s : rfind c s = 0 → ∃ t, s = String c t.
Proof.
  destruct s as [|x s]; cbn [rfind]; [done|].
  pose proof (rfind_bounds c s).
  destruct (Z.leb_spec 0 (rfind c s)); [lia|].
  destruct (Ascii.eqb_spec x c) as [->|]; [eauto | lia].
Qed.

Lemma rfind_cut c a b :
  0 ≤ rfind c (a +:+ b) → rfind c (a +:+ b) = len a → ∃ t, b = String c t.
Proof.
  rewrite rfind_app. pose proof (rfind_bounds c a).
  destruct (Z.leb_spec 0 (rfind c b)); intros _ Heq; [|lia].
  apply rfind_zero. lia.
Qed.

(** [splitext] cuts the path in two, at a dot after the last separator
    when it cuts at all. *)
Lemma splitext_root_ext p root ext :
  splitext p = Ok (root, ext) →
  p = root +:+ ext ∧ lacks "/" ext = true
  ∧ (ext = "" ∨ startswith "." ext = true).
Proof.
  unfold splitext, lacks.
  pose proof (rfind_bounds "/" p) as Hsep. pose proof (rfind_bounds "." p) as Hdot.
  destruct (Z.ltb_spec (rfind "/" p) (rfind "." p)) as [Hlt|Hge]; cycle 1.
  { intros [= <- <-]. by rewrite app_empty_r; auto. }
  destruct (splitext_scan _ p _ _) as [[r|]|e] eqn:Hscan; simpl; [| |done].
  - apply splitext_scan_some in Hscan as ->. intros [= <- <-].
    destruct (slice_split p (rfind "." p)) as (a & b & Hp & Ha & -> & ->); [lia|].
    split; [done|]. rewrite Hp in Hlt, Ha. split.
    + apply Z.eqb_eq. rewrite rfind_app in Hlt.
      pose proof (rfind_bounds "/" b). revert Hlt. rewrite <-Ha.
      destruct (Z.leb_spec 0 (rfind "/" b)); lia.
    + right.
      destruct (rfind_cut "." a b) as [t ->];
        [rewrite <-Ha; apply len_nonneg | done |].
      apply startswith_spec. by exists t.
  - intros [= <- <-]. by rewrite app_empty_r; auto.
Qed.

Lemma basename_suffix p : ∃ d, p = d +:+ basename p.
Proof.
  unfold basename. pose proof (rfind_bounds "/" p).
  destruct (slice_split p (rfind "/" p + 1)) as (a & b & Hp & _ & _ & ->); [lia|].
  by exists a.
Qed.

(** A returned entry was made from a line of the unit, before which
    every line was skipped. *)
Lemma entry_inversion path lines entry rest :
  _get_file_map_entry path lines = Ok (Some entry, rest) →
  ∃ skipped line name,
    lines = skipped ++ line :: rest
    ∧ Forall (λ l, examine_line l = Ok Continue) skipped
    ∧ examine_line line = Ok (Return name)
    ∧ make_entry path name = Ok entry.
Proof.
  induction lines as [|l lines IH]; [done|]. cbn [_get_file_map_entry].
  destruct (examine_line l) as [[|name]|e] eqn:Hl; simpl; [| |done].
  - intros (skipped & line & name & -> & Hskip & Hline & He)%IH.
    exists (l :: skipped), line, name. repeat split; [|done..].
    by apply Forall_cons_2.
  - destruct (make_entry path name) as [e|e] eqn:He; simpl; [|done].
    intros [= <- <-]. exists [], l, name. repeat split; [|done..].
    apply Forall_nil_2.
Qed.

Lemma all_dots_lacks_sep dots :
  all_chars (Ascii.eqb ".") dots = true → rfind "/" dots = -1.
Proof.
  induction dots as [|c dots IH]; [done|]. cbn [all_chars rfind].
  intros [<-%Ascii.eqb_eq H]%andb_true_iff. by rewrite IH.
Qed.

Lemma dots_comm dots :
  all_chars (Ascii.eqb ".") dots = true → "." +:+ dots = dots +:+ ".".
Proof.
  induction dots as [|c dots IH]; [done|]. cbn [all_chars].
  intros [<-%Ascii.eqb_eq H]%andb_true_iff.
  simpl. by rewrite <-IH.
Qed.

Lemma splitext_scan_dots s : ∀ fuel a b p,
  p = a +:+ s +:+ b → all_chars (Ascii.eqb ".") s = true →
  splitext_scan fuel p (len a) (len a + len s) = Ok None.
Proof.
  induction s as [|c s IH]; intros fuel a b p Hp Hs.
  - destruct fuel; [done|]. cbn [splitext_scan].
    change (len "") with 0. rewrite Z.add_0_r.
    by replace (len a <? len a) with false by (symmetry; apply Z.ltb_ge; lia).
  - destruct fuel; [done|]. cbn [splitext_scan]. rewrite len_cons.
    pose proof (len_nonneg s).
    replace (len a <? len a + (len s + 1)) with true
      by (symmetry; apply Z.ltb_lt; lia).
    rewrite Hp at 1. rewrite app_cons, getitem_app_head. simpl.
    cbn [all_chars] in Hs. apply andb_true_iff in Hs as [<-%Ascii.eqb_eq Hs].
    simpl. specialize (IH fuel (a +:+ ".") b p).
    rewrite len_app in IH. change (len ".") with 1 in IH.
    replace (len a + 1 + len s) with (len a + (len s + 1)) in IH by lia.
    apply IH; [|done]. by rewrite Hp, app_assoc'.
Qed.

(** [splitext] leaves a plain name whole. *)
Lemma splitext_plain dir dots word :
  is_dir_prefix dir = true → is_plain_name dots word = true →
  splitext (dir +:+ dots +:+ word) = Ok (dir +:+ dots +:+ word, "").
Proof.
  unfold is_plain_name, lacks.
  intros Hdir [[Hdots Hwdot%Z.eqb_eq]%andb_true_iff Hwsep%Z.eqb_eq]%andb_true_iff.
  unfold splitext.
  assert (rfind "/" (dots +:+ word) = -1) as Hsep.
  { rewrite rfind_app, Hwsep. simpl. by apply all_dots_lacks_sep. }
  rewrite rfind_sep_dir by done.
  destruct dots as [|c dots].
  - simpl. rewrite rfind_app, Hwdot. simpl.
    pose proof (rfind_bounds "." dir).
    by replace (len dir - 1 <? rfind "." dir) with false
      by (symmetry; apply Z.ltb_ge; lia).
  - cbn [all_chars] in Hdots.
    apply andb_true_iff in Hdots as [<-%Ascii.eqb_eq Hdots].
    change (String "." dots) with ("." +:+ dots). rewrite dots_comm by done.
    assert (rfind "." (dir +:+ (dots +:+ ".") +:+ word) = len dir + len dots) as ->.
    { rewrite <-app_assoc', (rfind_app "." _ word), Hwdot. simpl.
      rewrite <-app_assoc', rfind_app, len_app. simpl. lia. }
    pose proof (len_nonneg dots).
    replace (len dir - 1 <? len dir + len dots) with true
      by (symmetry; apply Z.ltb_lt; lia).
    replace (len dir - 1 + 1) with (len dir) by lia.
    rewrite (splitext_scan_dots dots _ dir ("." +:+ word)); [done| |done].
    by rewrite !app_assoc'.
Qed.

Lemma make_entry_plain dir dots word name :
  is_dir_prefix dir = true → is_plain_name dots word = true →
  make_entry (dir +:+ dots +:+ word) name
  = Ok (name +:+ "." +:+ dots +:+ word, dir +:+ dots +:+ word +:+ ".h").
Proof.
  intros Hdir Hplain. unfold make_entry.
  assert (rfind "/" (dots +:+ word) = -1) as Hsep.
  { unfold is_plain_name, lacks in Hplain.
    apply andb_true_iff in Hplain as [[Hdots _]%andb_true_iff Hwsep%Z.eqb_eq].
    rewrite rfind_app, Hwsep. simpl. by apply all_dots_lacks_sep. }
  rewrite basename_app by done.
  assert (splitext (dots +:+ word) = Ok (dots +:+ word, "")) as ->
    by exact (splitext_plain "" dots word eq_refl Hplain).
  rewrite splitext_plain by done. simpl. by rewrite !app_assoc'.
Qed.

End entry_shape.

(** X4.  An entry the extractor returns was made from one line of the
    unit, every line before it having been skipped and every line after
    it being left unread.  Its qualified name is the package name of that
    line, a non-empty run of word characters and dots, then a dot, then a
    prefix of the base name of the identifier.  Its header path is a
    prefix of the identifier followed by [.h], and what the prefix leaves
    out is empty or starts with a dot and holds no separator. *)
Theorem entry_shape (path : string) (lines rest : list string) (q h : string) :
  _get_file_map_entry path lines = Ok (Some (q, h), rest) →
  ∃ skipped line name class_name class_ext root ext,
    lines = skipped ++ line :: rest
    ∧ Forall (λ l, examine_line l = Ok Continue) skipped
    ∧ examine_line line = Ok (Return name)
    ∧ truthy name = true ∧ all_chars PackageRe.is_name_char name = true
    ∧ q = name +:+ "." +:+ class_name
    ∧ PosixPath.basename path = class_name +:+ class_ext
    ∧ path = root +:+ ext ∧ h = root +:+ ".h"
    ∧ lacks "/" ext = true ∧ (ext = "" ∨ startswith "." ext = true).
Proof.
  intros (skipped & line & name & -> & Hskip & Hline & He)%entry_inversion.
  destruct (accepted_declares _ _ Hline) as (pre & after & ws & _ & _ & _ & Hname & Hnameb).
  unfold make_entry in He.
  destruct (PosixPath.splitext (PosixPath.basename path)) as [[cls cext]|e] eqn:Hbase;
    simpl in He; [|done].
  destruct (PosixPath.splitext path) as [[root ext]|e] eqn:Hroot; simpl in He; [|done].
  injection He as <- <-.
  apply splitext_root_ext in Hbase as (Hbase & _).
  apply splitext_root_ext in Hroot as (Hroot & Hsep & Hdot).
  exists skipped, line, name, cls, cext, root, ext.
  repeat split; try done. by apply truthy_true.
Qed.

Lemma entry_shape_witness :
  ∃ skipped line name class_name class_ext root ext,
    ["// a"; "package p.q;"; "class Bar {}"] = skipped ++ line :: ["class Bar {}"]
    ∧ Forall (λ l, examine_line l = Ok Continue) skipped
    ∧ examine_line line = Ok (Return name)
    ∧ truthy name = true ∧ all_chars PackageRe.is_name_char name = true
    ∧ "p.q.Bar.tar" = name +:+ "." +:+ class_name
    ∧ PosixPath.basename "src.d/Bar.tar.java" = class_name +:+ class_ext
    ∧ "src.d/Bar.tar.java" = root +:+ ext ∧ "src.d/Bar.tar.h" = root +:+ ".h"
    ∧ lacks "/" ext = true ∧ (ext = "" ∨ startswith "." ext = true).
Proof.
  apply (entry_shape "src.d/Bar.tar.java" ["// a"; "package p.q;"; "class Bar {}"]).
  reflexivity.
Defined.

(** X5.  For an identifier whose file name has no extension to split off
    (no dot in it, or dots only at its head, as in [Makefile], [.java] or
    [..hidden]) the class name is the whole file name and the header path
    is the whole identifier followed by [.h]; dots of the directory are
    not taken for an extension. *)
Theorem plain_name_kept_whole
    (dir dots word : string) (skipped : list string) (line name : string)
    (rest : list string) :
  is_dir_prefix dir = true → is_plain_name dots word = true →
  Forall (λ l, examine_line l = Ok Continue) skipped →
  examine_line line = Ok (Return name) →
  _get_file_map_entry (dir +:+ dots +:+ word) (skipped ++ line :: rest)
  = Ok (Some (name +:+ "." +:+ dots +:+ word, dir +:+ dots +:+ word +:+ ".h"), rest).
Proof.
  intros Hdir Hplain Hskip Hline. rewrite scan_skips by done.
  eapply scan_accepts; [done|]. by apply make_entry_plain.
Qed.

Lemma plain_name_kept_whole_witness :
  _get_file_map_entry "a.b/.java" ["package p;"; "x"]
  = Ok (Some ("p..java", "a.b/.java.h"), ["x"])
  ∧ _get_file_map_entry "a.b/Makefile" ["package p;"; "x"]
    = Ok (Some ("p.Makefile", "a.b/Makefile.h"), ["x"]).
Proof.
  split.
  - apply (plain_name_kept_whole "a.b/" "." "java" [] "package p;" "p" ["x"]);
      try reflexivity. apply Forall_nil_2.
  - apply (plain_name_kept_whole "a.b/" "" "Makefile" [] "package p;" "p" ["x"]);
      try reflexivity. apply Forall_nil_2.
Defined.

(** ** How a run ends *)

Section outcome.
Implicit Types (m : gmap string string) (w : world) (path : string).

Lemma collect_unfold args w :
  collect args w
  = (for_each scan_source_file (listed (source_files args)) ∅
       ≫= for_each scan_source_jar (listed (source_jars args))) w.
Proof.
  unfold collect, listed.
  destruct (given (source_files args)), (given (source_jars args)); done.
Qed.

Lemma input_units_unfold args w :
  input_units args w
  = loose_units (files w) (listed (source_files args))
    ++ archive_units (archives w) (listed (source_jars args)).
Proof.
  unfold input_units, listed.
  destruct (given (source_files args)), (given (source_jars args)); done.
Qed.

(** The loop over the loose files up to the first file that is missing. *)
Lemma for_each_source_files_missing present missing rest : ∀ m w,
  Forall (λ p, is_Some (files w !! p)) present → files w !! missing = None →
  for_each scan_source_file (present ++ missing :: rest) m w
  = (Raise (IOError missing),
     World (files w) (archives w) (trace w ++ (OpenedSource <$> present))).
Proof.
  induction present as [|p present IH]; intros m w Hpresent Hmissing.
  - cbn [app for_each]. erewrite bind_raise by by apply scan_source_file_missing.
    simpl. by rewrite app_nil_r, world_eta.
  - apply Forall_cons in Hpresent as [[content Hp] Hpresent].
    cbn [app for_each]. erewrite bind_ok by by apply scan_source_file_present.
    rewrite IH by done. simpl. by rewrite <-app_assoc.
Qed.

(** The loop over the loose files when none is missing. *)
Lemma for_each_source_files_run paths : ∀ m w,
  Forall (λ p, is_Some (files w !! p)) paths →
  for_each scan_source_file paths m w
  = (Ok (table_of (loose_units (files w) paths) m),
     World (files w) (archives w) (trace w ++ (OpenedSource <$> paths))).
Proof.
  induction paths as [|p paths IH]; intros m w Hpaths.
  - simpl. by rewrite app_nil_r, world_eta.
  - apply Forall_cons in Hpaths as [[content Hp] Hpaths].
    cbn [for_each]. erewrite bind_ok by by apply scan_source_file_present.
    rewrite IH by done. unfold loose_units, source_unit. cbn [omap list_omap].
    rewrite Hp. simpl. by rewrite <-app_assoc.
Qed.

Lemma scan_source_jar_run source_jar jar m w :
  archives w !! source_jar = Some jar →
  scan_source_jar source_jar m w
  = (Ok (table_of (jar_units jar (namelist jar)) m),
     World (files w) (archives w)
       (trace w ++ OpenedJar source_jar
          :: (OpenedJarEntry source_jar <$> java_names (namelist jar)))).
Proof.
  intros Hjar. unfold scan_source_jar.
  erewrite bind_ok by (unfold open_jar; by rewrite Hjar).
  rewrite for_each_jar_entries
    by (apply Forall_forall; intros n Hn; by apply getinfo_namelist).
  simpl. by rewrite <-app_assoc.
Qed.

Lemma scan_source_jar_missing source_jar m w :
  archives w !! source_jar = None →
  scan_source_jar source_jar m w = (Raise (IOError source_jar), w).
Proof.
  intros Hjar. unfold scan_source_jar.
  apply bind_raise. unfold open_jar. by rewrite Hjar.
Qed.

(** The loop over the archives, whichever way it ends. *)
Lemma for_each_source_jars_run paths : ∀ m w,
  ∃ evs, Forall (λ e, is_jar_event e = true) evs
    ∧ ((Forall (λ p, is_Some (archives w !! p)) paths
        ∧ for_each scan_source_jar paths m w
          = (Ok (table_of (archive_units (archives w) paths) m),
             World (files w) (archives w) (trace w ++ evs)))
       ∨ (∃ path, path ∈ paths ∧ archives w !! path = None
          ∧ for_each scan_source_jar paths m w
            = (Raise (IOError path),
               World (files w) (archives w) (trace w ++ evs)))).
Proof.
  induction paths as [|p paths IH]; intros m w.
  - exists []. split; [done|]. left. split; [done|].
    simpl. by rewrite app_nil_r, world_eta.
  - cbn [for_each]. destruct (archives w !! p) as [jar|] eqn:Hjar.
    + erewrite bind_ok by by apply scan_source_jar_run.
      destruct (IH (table_of (jar_units jar (namelist jar)) m)
                  (World (files w) (archives w)
                     (trace w ++ OpenedJar p
                        :: (OpenedJarEntry p <$> java_names (namelist jar)))))
        as (evs & Hevs & Hrun).
      exists (OpenedJar p :: (OpenedJarEntry p <$> java_names (namelist jar)) ++ evs).
      split.
      { apply Forall_cons_2; [done|]. apply Forall_app. split; [|done].
        by apply Forall_fmap, Forall_true. }
      simpl in Hrun. rewrite <-app_assoc in Hrun. simpl in Hrun.
      destruct Hrun as [[Hall ->]|(path & Hin & Hnone & ->)].
      * left. split; [apply Forall_cons_2; by eauto|].
        cbn [archive_units]. by rewrite Hjar, table_of_app.
      * right. exists path. split; [by apply list_elem_of_further|]. done.
    + exists []. split; [done|]. right. exists p.
      split; [apply list_elem_of_here|]. split; [done|].
      erewrite bind_raise by by apply scan_source_jar_missing.
      by rewrite app_nil_r, world_eta.
Qed.

Lemma first_missing (paths : list string) (mp : gmap string string) :
  ¬ Forall (λ p, is_Some (mp !! p)) paths →
  ∃ present missing rest,
    paths = present ++ missing :: rest
    ∧ Forall (λ p, is_Some (mp !! p)) present ∧ mp !! missing = None.
Proof.
  induction paths as [|p paths IH]; intros Hnot.
  - destruct Hnot. apply Forall_nil_2.
  - destruct (mp !! p) as [c|] eqn:Hp.
    + destruct IH as (present & missing & rest & -> & Hpresent & Hmissing).
      { intros Hall. apply Hnot. apply Forall_cons_2; [by rewrite Hp|done]. }
      exists (p :: present), missing, rest.
      repeat split; [|done]. apply Forall_cons_2; [by rewrite Hp|done].
    + exists [], p, paths. repeat split; [apply Forall_nil_2 | done].
Qed.




End outcome.

(** A run that ends normally found all its inputs. *)
Lemma main_ok_inputs_exist args w w' :
  main args w = (Ok (), w') → inputs_exist args w.
Proof.
  intros Hmain. unfold main in Hmain.
  destruct (collect args w) as [[m|e] w1] eqn:Hrun;
    [|by erewrite bind_raise in Hmain by done].
  clear Hmain. rewrite collect_unfold in Hrun.
  destruct (decide (Forall (λ p, is_Some (files w !! p))
                      (listed (source_files args)))) as [Hfiles|Hfiles].
  - split; [done|].
    erewrite bind_ok in Hrun by by apply for_each_source_files_run.
    destruct (for_each_source_jars_run (listed (source_jars args))
                (table_of (loose_units (files w) (listed (source_files args))) ∅)
                (World (files w) (archives w)
                   (trace w ++ (OpenedSource <$> listed (source_files args)))))
      as (evs & _ & [[Hall _]|(path & _ & _ & Hraise)]); [done|].
    by rewrite Hraise in Hrun.
  - apply first_missing in Hfiles
      as (present & missing & rest & Hlisted & Hpresent & Hmissing).
    rewrite Hlisted in Hrun.
    by erewrite bind_raise in Hrun by by apply for_each_source_files_missing.
Qed.

(** The run, when its inputs all exist and an output path is given. *)
Lemma main_run args out w :
  inputs_exist args w → given (output_mapping_file args) = Some out →
  ∃ jar_events,
    Forall (λ e, is_jar_event e = true) jar_events
    ∧ main args w
      = (Ok (),
         World (<[out := render (table_of (input_units args w) ∅)]> (files w))
               (archives w)
               (trace w ++ (OpenedSource <$> listed (source_files args))
                  ++ jar_events ++ [OpenedOutput out])).
Proof.
  intros [Hfiles Hjars] Hout. rewrite input_units_unfold.
  destruct (for_each_source_jars_run (listed (source_jars args))
              (table_of (loose_units (files w) (listed (source_files args))) ∅)
              (World (files w) (archives w)
                 (trace w ++ (OpenedSource <$> listed (source_files args)))))
    as (evs & Hevs & [[_ Hrun]|(path & Hin & Hnone & _)]).
  - exists evs. split; [done|]. unfold main.
    erewrite bind_ok; cycle 1.
    { rewrite collect_unfold.
      erewrite bind_ok by by apply for_each_source_files_run. exact Hrun. }
    rewrite (write_mapping_given _ _ _ _ Hout). simpl.
    by rewrite table_of_app, <-!app_assoc.
  - simpl in Hnone. eapply Forall_forall in Hjars; [|done].
    rewrite Hnone in Hjars. by destruct Hjars.
Qed.





(** X8.  The first listed source file that does not exist ends the run
    with its I/O error: the files listed before it were opened, and
    neither a file listed after it, nor an archive, nor the output file
    is opened. *)
Theorem first_missing_source_aborts
    (args : Args) (w : world) (present : list string) (missing : string)
    (rest : list string) :
  listed (source_files args) = present ++ missing :: rest →
  Forall (λ p, is_Some (files w !! p)) present →
  files w !! missing = None →
  main args w
  = (Raise (IOError missing),
     World (files w) (archives w) (trace w ++ (OpenedSource <$> present))).
Proof.
  intros Hlisted Hpresent Hmissing. unfold main.
  apply bind_raise. rewrite collect_unfold, Hlisted.
  apply bind_raise. by apply for_each_source_files_missing.
Qed.

Lemma first_missing_source_aborts_witness :
  main (MkArgs (Some "A.java,B.java,C.java,a/Foo.java") (Some "lib.srcjar")
          (Some "out")) sample_world
  = (Raise (IOError "C.java"),
     World sample_loose {[ "lib.srcjar" := sample_jar ]}
       [OpenedSource "A.java"; OpenedSource "B.java"]).
Proof.
  apply (first_missing_source_aborts _ sample_world ["A.java"; "B.java"]
           "C.java" ["a/Foo.java"]); [reflexivity| |reflexivity].
  forall_each ltac:(vm_compute; eauto).
Defined.

(** X9.  With no source file and no archive listed (the options left
    out, or given empty) and an output path, the run ends normally and
    leaves an empty output file, whatever the file held before. *)
Theorem no_inputs_empty_output (args : Args) (out : string) (w : world) :
  given (source_files args) = None → given (source_jars args) = None →
  given (output_mapping_file args) = Some out →
  main args w
  = (Ok (), World (<[out := ""]> (files w)) (archives w)
                  (trace w ++ [OpenedOutput out])).
Proof.
  intros Hfiles Hjars Hout. unfold main, collect. rewrite Hfiles, Hjars.
  erewrite bind_ok by done. rewrite (write_mapping_given _ _ _ _ Hout).
  by unfold sorted; rewrite map_to_list_empty.
Qed.

Lemma no_inputs_empty_output_witness :
  main (MkArgs (Some "") None (Some "A.java")) sample_world
  = (Ok (), World (<["A.java" := ""]> sample_loose)
                  {[ "lib.srcjar" := sample_jar ]} [OpenedOutput "A.java"]).
Proof.
  apply (no_inputs_empty_output (MkArgs (Some "") None (Some "A.java")) "A.java"
           sample_world); reflexivity.
Defined.

(** ** The mapping and the units *)

Section provenance.
Implicit Types (m : gmap string string) (q h : string)
  (u : string * list string) (us : list (string * list string)).

Lemma table_of_origin us : ∀ m q h,
  table_of us m !! q = Some h →
  (∃ u, u ∈ us ∧ unit_entry u = Some (q, h)) ∨ m !! q = Some h.
Proof.
  induction us as [|u us IH]; intros m q h Hq; [by right|].
  rewrite table_of_cons in Hq. apply IH in Hq as [(u' & Hin & Hu')|Hq].
  - left. exists u'. split; [by apply list_elem_of_further|done].
  - destruct (unit_entry u) as [[q' h']|] eqn:Hu; [|by right]. simpl in Hq.
    destruct (decide (q' = q)) as [->|Hne].
    + rewrite lookup_insert_eq in Hq. injection Hq as ->.
      left. exists u. split; [apply list_elem_of_here|done].
    + rewrite lookup_insert_ne in Hq by done. by right.
Qed.

Lemma table_of_keeps us : ∀ m q,
  is_Some (m !! q) → is_Some (table_of us m !! q).
Proof.
  induction us as [|u us IH]; intros m q Hq; [done|].
  rewrite table_of_cons. apply IH.
  destruct (unit_entry u) as [[q' h']|]; [|done]. simpl.
  apply lookup_insert_is_Some. destruct (decide (q' = q)); auto.
Qed.

Lemma table_of_has us : ∀ m u q h,
  u ∈ us → unit_entry u = Some (q, h) → is_Some (table_of us m !! q).
Proof.
  induction us as [|u' us IH]; intros m u q h Hin Hu; [by apply elem_of_nil in Hin|].
  rewrite table_of_cons. apply elem_of_cons in Hin as [<-|Hin].
  - apply table_of_keeps. rewrite Hu. simpl. rewrite lookup_insert_eq. eauto.
  - by eapply IH.
Qed.

Lemma table_of_size us : ∀ m,
  (size (table_of us m) ≤ size m + length us)%nat.
Proof.
  induction us as [|u us IH]; intros m; [simpl; lia|].
  rewrite table_of_cons. etrans; [apply IH|]. simpl.
  destruct (unit_entry u) as [[q h]|]; simpl; [|lia].
  rewrite map_size_insert. destruct (m !! q); simpl; lia.
Qed.

Lemma keys_of_cons u us :
  keys_of (u :: us)
  = match unit_entry u with
    | Some e => e.1 :: keys_of us
    | None => keys_of us
    end.
Proof. unfold keys_of. simpl. by destruct (unit_entry u). Qed.

Lemma elem_of_keys_of us q :
  q ∈ keys_of us ↔ ∃ u h, u ∈ us ∧ unit_entry u = Some (q, h).
Proof.
  unfold keys_of. rewrite list_elem_of_omap. split.
  - intros (u & Hin & Hq). destruct (unit_entry u) as [[q' h]|] eqn:Hu; [|done].
    injection Hq as <-. eauto.
  - intros (u & h & Hin & Hu). exists u. by rewrite Hu.
Qed.

(** When no two units have one qualified name, the mapping holds for a
    name what the one unit with that name says. *)
Lemma table_of_lookup_nodup us : ∀ m q h,
  NoDup (keys_of us) →
  table_of us m !! q = Some h ↔
    (∃ u, u ∈ us ∧ unit_entry u = Some (q, h))
    ∨ (m !! q = Some h ∧ q ∉ keys_of us).
Proof.
  induction us as [|u us IH]; intros m q h Hnd.
  - simpl. split; [intros H; right; split; [done|apply not_elem_of_nil]|].
    intros [(u & Hin & _)|[H _]]; [by apply elem_of_nil in Hin | done].
  - rewrite table_of_cons. rewrite keys_of_cons in Hnd |- *.
    destruct (unit_entry u) as [[q' h']|] eqn:Hu; simpl in *.
    + apply NoDup_cons in Hnd as [Hfresh Hnd]. rewrite IH by done. split.
      * intros [(u' & Hin & Hu')|[Hq Hnotin]].
        { left. exists u'. split; [by apply list_elem_of_further|done]. }
        destruct (decide (q' = q)) as [->|Hne].
        { rewrite lookup_insert_eq in Hq. injection Hq as ->.
          left. exists u. split; [apply list_elem_of_here|done]. }
        rewrite lookup_insert_ne in Hq by done. right. split; [done|].
        rewrite not_elem_of_cons. auto.
      * intros [(u' & [->|Hin]%elem_of_cons & Hu')|[Hq Hnotin]].
        { rewrite Hu in Hu'. injection Hu' as -> ->.
          right. by rewrite lookup_insert_eq. }
        { left. eauto. }
        apply not_elem_of_cons in Hnotin as [Hne Hnotin].
        right. by rewrite lookup_insert_ne.
    + rewrite IH by done. split.
      * intros [(u' & Hin & Hu')|H]; [|by right].
        left. exists u'. split; [by apply list_elem_of_further|done].
      * intros [(u' & [->|Hin]%elem_of_cons & Hu')|H]; [congruence|by eauto|by right].
Qed.

(** Units without a common qualified name can be processed in any
    order. *)
Lemma table_of_permutation us us' m :
  us ≡ₚ us' → NoDup (keys_of us) → table_of us m = table_of us' m.
Proof.
  intros Hperm Hnd.
  assert (NoDup (keys_of us')) as Hnd'.
  { unfold keys_of in *. by rewrite <-Hperm. }
  apply map_eq. intros q. apply option_eq. intros h.
  rewrite !table_of_lookup_nodup by done.
  assert (∀ u, u ∈ us ↔ u ∈ us') as Hin by (intros u; by rewrite Hperm).
  assert (q ∈ keys_of us ↔ q ∈ keys_of us') as Hkeys.
  { unfold keys_of. by rewrite Hperm. }
  split; (intros [(u & Hu & He)|[Hq Hnotin]];
          [left; exists u; split; [by apply Hin|done] | right; split; [done|tauto]]).
Qed.

Lemma loose_units_insert mp out text paths :
  out ∉ paths → loose_units (<[out := text]> mp) paths = loose_units mp paths.
Proof.
  induction paths as [|p paths IH]; intros Hout; [done|].
  apply not_elem_of_cons in Hout as [Hne Hout].
  unfold loose_units, source_unit in *. cbn [omap list_omap].
  rewrite lookup_insert_ne by done. by rewrite IH.
Qed.

End provenance.

(** X10.  The mapping of a run that read its inputs holds nothing but
    entries of its units, has a qualified name for every unit that has
    an entry, and has no more entries than there are units. *)
Theorem mapping_from_units (args : Args) (w w' : world) (m : gmap string string) :
  collect args w = (Ok m, w') →
  (∀ q h, m !! q = Some h →
     ∃ u, u ∈ input_units args w ∧ unit_entry u = Some (q, h))
  ∧ (∀ u q h, u ∈ input_units args w → unit_entry u = Some (q, h) →
       is_Some (m !! q))
  ∧ (size m ≤ length (input_units args w))%nat.
Proof.
  intros ->%collect_ok. split; [|split].
  - intros q h [Hq|Hq]%table_of_origin; [done|]. by rewrite lookup_empty in Hq.
  - intros u q h Hin Hu. by eapply table_of_has.
  - pose proof (table_of_size (input_units args w) ∅) as Hsize.
    by rewrite map_size_empty in Hsize.
Qed.

Lemma mapping_from_units_witness :
  (∃ u, u ∈ input_units sample_args sample_world
        ∧ unit_entry u = Some ("p.Foo", "b/Foo.h"))
  ∧ (size sample_mapping ≤ length (input_units sample_args sample_world))%nat.
Proof.
  destruct (mapping_from_units sample_args sample_world
              (collect sample_args sample_world).2 sample_mapping)
    as (Horigin & _ & Hsize); [vm_compute; reflexivity|].
  split; [by apply Horigin | exact Hsize].
Defined.

(** X11.  When no two units of a run have one qualified name, the order
    of the inputs does not matter: two runs whose units are the same up
    to their order end with the same mapping, and write the same text
    when they are given an output path. *)
Theorem order_irrelevant_without_duplicates
    (args1 args2 : Args) (w1 w2 w1' w2' : world) (m1 m2 : gmap string string) :
  collect args1 w1 = (Ok m1, w1') →
  collect args2 w2 = (Ok m2, w2') →
  input_units args1 w1 ≡ₚ input_units args2 w2 →
  NoDup (keys_of (input_units args1 w1)) →
  m1 = m2
  ∧ ∀ out1 out2,
      given (output_mapping_file args1) = Some out1 →
      given (output_mapping_file args2) = Some out2 →
      files (main args1 w1).2 !! out1 = files (main args2 w2).2 !! out2.
Proof.
  intros Hrun1 Hrun2 Hperm Hnd.
  assert (m1 = m2) as <-.
  { apply collect_ok in Hrun1 as ->. apply collect_ok in Hrun2 as ->.
    by apply table_of_permutation. }
  split; [done|]. intros out1 out2 Hout1 Hout2. unfold main.
  erewrite !bind_ok by done.
  rewrite (write_mapping_given _ _ _ _ Hout1), (write_mapping_given _ _ _ _ Hout2).
  simpl. by rewrite !lookup_insert_eq.
Qed.

Lemma order_irrelevant_without_duplicates_witness :
  files (main (MkArgs (Some "A.java,a/Foo.java") None (Some "out")) sample_world).2
    !! "out"
  = files (main (MkArgs (Some "a/Foo.java,A.java") None (Some "map")) sample_world).2
      !! "map".
Proof.
  eapply (order_irrelevant_without_duplicates
            (MkArgs (Some "A.java,a/Foo.java") None (Some "out"))
            (MkArgs (Some "a/Foo.java,A.java") None (Some "map"))
            sample_world sample_world _ _ _ _);
    [reflexivity | reflexivity | apply perm_swap | | reflexivity | reflexivity].
  refine (bool_decide_unpack _ _). vm_compute. exact I.
Defined.



(** X13.  Running again rewrites the same file: when the output path is
    none of the listed inputs, a second run on the files the first run
    left ends normally too and leaves every file as the first run left
    it. *)
Theorem rerun_rewrites_same_file (args : Args) (out : string) (w w' : world) :
  main args w = (Ok (), w') →
  given (output_mapping_file args) = Some out →
  out ∉ listed (source_files args) →
  out ∉ listed (source_jars args) →
  ∃ w'', main args w' = (Ok (), w'') ∧ files w'' = files w'.
Proof.
  intros Hmain Hout Hnotfile Hnotjar.
  pose proof (main_ok_inputs_exist _ _ _ Hmain) as Hexist.
  destruct (main_run args out w Hexist Hout) as (evs & _ & Hrun).
  rewrite Hrun in Hmain. injection Hmain as <-.
  destruct Hexist as [Hfiles Hjars].
  match type of Hrun with
  | _ = (_, ?w1) => destruct (main_run args out w1) as (evs' & _ & Hrun')
  end; [|exact Hout|].
  { split; simpl; [|exact Hjars].
    eapply Forall_impl; [exact Hfiles|]. simpl. intros p Hp.
    apply lookup_insert_is_Some'. by right. }
  eexists. split; [exact Hrun'|]. simpl.
  rewrite insert_insert_eq. f_equal. f_equal. f_equal.
  rewrite !input_units_unfold. simpl. by rewrite loose_units_insert.
Qed.

Lemma rerun_rewrites_same_file_witness :
  ∃ w'', main sample_args (main sample_args sample_world).2 = (Ok (), w'')
    ∧ files w'' = files (main sample_args sample_world).2.
Proof.
  apply (rerun_rewrites_same_file sample_args "out" sample_world);
    [reflexivity | reflexivity | |];
    (refine (bool_decide_unpack _ _); vm_compute; exact I).
Defined.

(** ** The lists of the command line *)

Section comma_lists.
Implicit Types (s p : string) (ps : list string) (c : ascii).

Lemma lacks_cons c x s :
  lacks c (String x s) = negb (Ascii.eqb x c) && lacks c s.
Proof.
  unfold lacks. cbn [rfind]. pose proof (rfind_bounds c s).
  destruct (Z.leb_spec 0 (rfind c s)).
  - replace (rfind c s + 1 =? -1) with false by (symmetry; apply Z.eqb_neq; lia).
    replace (rfind c s =? -1) with false by (symmetry; apply Z.eqb_neq; lia).
    by rewrite andb_false_r.
  - replace (rfind c s =? -1) with true by (symmetry; apply Z.eqb_eq; lia).
    by destruct (Ascii.eqb x c).
Qed.

Lemma split_comma_nonempty s : split_comma s ≠ [].
Proof.
  destruct s as [|c s]; [done|]. cbn [split_comma].
  destruct (Ascii.eqb c ","); [done|]. by destruct (split_comma s).
Qed.

Lemma split_comma_field p : lacks "," p = true → split_comma p = [p].
Proof.
  induction p as [|c p IH]; [done|]. rewrite lacks_cons.
  intros [Hc%negb_true_iff Hp]%andb_true_iff.
  cbn [split_comma]. rewrite Hc, IH by done. done.
Qed.

Lemma split_comma_app p s :
  lacks "," p = true → split_comma (p +:+ "," +:+ s) = p :: split_comma s.
Proof.
  induction p as [|c p IH]; [done|]. rewrite lacks_cons.
  intros [Hc%negb_true_iff Hp]%andb_true_iff.
  rewrite app_cons. cbn [split_comma]. rewrite Hc, IH by done. done.
Qed.

Lemma concat_cons_cons p p' ps :
  String.concat "," (p :: p' :: ps) = p +:+ "," +:+ String.concat "," (p' :: ps).
Proof. reflexivity. Qed.

Lemma concat_split_comma s : String.concat "," (split_comma s) = s.
Proof.
  induction s as [|c s IH]; [done|]. cbn [split_comma].
  pose proof (split_comma_nonempty s) as Hne.
  destruct (Ascii.eqb_spec c ",") as [->|Hc].
  - destruct (split_comma s) as [|f fs]; [done|].
    by rewrite concat_cons_cons, IH.
  - destruct (split_comma s) as [|f fs]; [done|].
    destruct fs as [|f' fs]; simpl in *; by rewrite <-IH.
Qed.

Lemma split_comma_fields s : Forall (λ p, lacks "," p = true) (split_comma s).
Proof.
  induction s as [|c s IH]; [by apply Forall_cons_2|]. cbn [split_comma].
  destruct (Ascii.eqb c ",") eqn:Hc.
  - by apply Forall_cons_2.
  - pose proof (split_comma_nonempty s) as Hne.
    destruct (split_comma s) as [|f fs]; [done|].
    apply Forall_cons in IH as [Hf Hfs]. apply Forall_cons_2; [|done].
    by rewrite lacks_cons, Hc.
Qed.

End comma_lists.

(** X14.  The value of [--source_files] or of [--source_jars] is read as
    the paths between its commas: a list of paths that hold no comma,
    joined by commas, is split into these same paths, an empty path for
    each doubled or trailing comma included; and the fields of any value
    hold no comma and give the value back when they are joined. *)
Theorem comma_list_round_trip (p : string) (ps : list string) :
  Forall (λ x, lacks "," x = true) (p :: ps) →
  split_comma (String.concat "," (p :: ps)) = p :: ps
  ∧ ∀ s, String.concat "," (split_comma s) = s
         ∧ Forall (λ x, lacks "," x = true) (split_comma s).
Proof.
  intros Hps. split; [|intros s; split;
                       [apply concat_split_comma | apply split_comma_fields]].
  revert p Hps. induction ps as [|p' ps IH]; intros p Hps.
  - apply Forall_cons in Hps as [Hp _]. by apply split_comma_field.
  - apply Forall_cons in Hps as [Hp Hps].
    rewrite concat_cons_cons, split_comma_app by done. by rewrite IH.
Qed.

Lemma comma_list_round_trip_witness :
  split_comma (String.concat "," ["a/A.java"; ""; "b c.java"; ""])
  = ["a/A.java"; ""; "b c.java"; ""].
Proof.
  apply (comma_list_round_trip "a/A.java" [""; "b c.java"; ""]).
  forall_each ltac:(reflexivity).
Defined.
